(** * FastClusterWrapper: centroid linkage behind a C boundary

    A shallow embedding of [Sources/FastClusterWrapper/FastClusterWrapper.cpp]
    and of its header.  The translation keeps the shape of the C++ code:

    - [t_float] is [double], modelled by Rocq's primitive binary64 floats:
      every sum, difference, product, quotient and square root is the
      IEEE 754 operation, rounded on its own (no fused multiply-add); NaN
      payloads are not told apart;
    - [t_index] is a signed integer type, modelled by [Z] (the ranges the
      boundary admits keep index arithmetic and the [size_t] offsets formed
      from indices clear of overflow); [size_t] arguments are [Z], with the
      one product the boundary forms on raw caller input reduced modulo
      [2^64];
    - blocks of memory ([const double *], [double *], [std::vector]) are lists
      read and written by position, a pointer into a block being the block
      with an offset;
    - a null pointer is [None];
    - a C++ exception is the [Throws] case of [outcome];
    - what the translation unit takes from [fastcluster_internal.hpp], which
      is not part of the sources at hand, is either a field of [Platform]
      ([MAX_INDEX], the engine [generic_linkage_vector_alternative]) or a
      definition marked as modelled from the specification ([node]'s order,
      [cluster_result], [union_find], the macro [Z_]);
    - the engine is a program over the operations of [CentroidDissimilarity]:
      it asks for distances and announces merges, and the model answers. *)

From Stdlib Require Import ZArith List Bool Lia Floats Uint63 Permutation.
Import ListNotations.
Local Open Scope Z_scope.

(* ================================================================== *)
(** * Status codes (FastClusterWrapper.h) *)

Inductive fastcluster_wrapper_status : Set :=
| FASTCLUSTER_WRAPPER_SUCCESS
| FASTCLUSTER_WRAPPER_INVALID_ARGUMENT
| FASTCLUSTER_WRAPPER_INDEX_OVERFLOW
| FASTCLUSTER_WRAPPER_OUTPUT_TOO_SMALL
| FASTCLUSTER_WRAPPER_ALLOCATION_FAILURE
| FASTCLUSTER_WRAPPER_RUNTIME_ERROR
| FASTCLUSTER_WRAPPER_UNKNOWN_ERROR.

(** The enumerators' values. *)
Definition status_code (s : fastcluster_wrapper_status) : Z :=
  match s with
  | FASTCLUSTER_WRAPPER_SUCCESS => 0
  | FASTCLUSTER_WRAPPER_INVALID_ARGUMENT => 1
  | FASTCLUSTER_WRAPPER_INDEX_OVERFLOW => 2
  | FASTCLUSTER_WRAPPER_OUTPUT_TOO_SMALL => 3
  | FASTCLUSTER_WRAPPER_ALLOCATION_FAILURE => 4
  | FASTCLUSTER_WRAPPER_RUNTIME_ERROR => 5
  | FASTCLUSTER_WRAPPER_UNKNOWN_ERROR => 255
  end.

(* ================================================================== *)
(** * Exceptions *)

(** What a [throw] inside the [try] block can raise, told apart exactly as the
    four handlers of the boundary tell them apart.  [nan_error] is the class
    the engine's header declares for a NaN distance. *)
Inductive thrown : Set :=
| bad_alloc                  (* std::bad_alloc *)
| nan_error                  (* the engine's nan_error *)
| std_exception (tag : Z)    (* any other class derived from std::exception *)
| foreign_value (tag : Z).   (* a value of a type outside that hierarchy *)

(** Whether the dynamic type of a thrown value derives from [std::exception].
    The declaration of [nan_error] is in [fastcluster_internal.hpp]; its
    base class is left open as [nan_is_std]. *)
Definition derives_std_exception (nan_is_std : bool) (e : thrown) : bool :=
  match e with
  | bad_alloc => true
  | nan_error => nan_is_std
  | std_exception _ => true
  | foreign_value _ => false
  end.

(** A computation that returns or throws. *)
Inductive outcome (A : Type) : Type :=
| Normal (a : A)
| Throws (e : thrown).
Arguments Normal {A} a.
Arguments Throws {A} e.

Definition bind {A B : Type} (m : outcome A) (f : A -> outcome B) : outcome B :=
  match m with
  | Normal a => f a
  | Throws e => Throws e
  end.

Notation "x <- m ;; k" := (bind m (fun x => k))
  (at level 61, m at next level, right associativity).
Notation "' pat <- m ;; k" := (bind m (fun x => match x with pat => k end))
  (at level 61, pat pattern, m at next level, right associativity).

(* ================================================================== *)
(** * Numbers and memory *)

(** [typedef double t_float] and the signed index type [t_index]. *)
Abbreviation t_float := float (only parsing).
Abbreviation t_index := Z (only parsing).

(** [static_cast<t_float>(z)] for an integer [z]: the nearest double. *)
Definition index_to_float (z : t_index) : t_float :=
  if z <? 0 then (- of_uint63 (Uint63.of_Z (- z)))%float
  else of_uint63 (Uint63.of_Z z).

(** The binary64 datum of a positive integer [z] below [2^53], in the terms
    of the floating-point specification: a 53-bit mantissa and the exponent
    that goes with it. *)
Definition canon (s : bool) (z : Z) : spec_float :=
  S754_finite s (Z.to_pos (z * 2 ^ (52 - Z.log2 z))) (Z.log2 z - 52).

(** [fc_isnan(X)] is [((X) != (X))]. *)
Definition fc_isnan (x : t_float) : bool := negb (x =? x)%float.

(** [p[i]] as an rvalue.  Outside the block the C++ read is undefined; the
    model yields the default [d] there. *)
Definition load {A : Type} (d : A) (m : list A) (i : Z) : A :=
  if i <? 0 then d else nth (Z.to_nat i) m d.

Fixpoint store_nat {A : Type} (m : list A) (n : nat) (x : A) : list A :=
  match m, n with
  | [], _ => []
  | _ :: t, O => x :: t
  | h :: t, S n' => h :: store_nat t n' x
  end.

(** [p[i] = x].  Outside the block the C++ write is undefined; the model
    leaves the block as it is. *)
Definition store {A : Type} (m : list A) (i : Z) (x : A) : list A :=
  if i <? 0 then m else store_nat m (Z.to_nat i) x.

(** [for (t_index k = start; ...; ++k) body] run [n] times. *)
Fixpoint for_loop {S : Type} (n : nat) (k : Z) (body : Z -> S -> S) (s : S) : S :=
  match n with
  | O => s
  | S n' => for_loop n' (k + 1) body (body k s)
  end.

(** A pointer into a block: the block and an element offset. *)
Definition pointer : Set := (list t_float * Z)%type.

Definition deref (p : pointer) (k : Z) : t_float :=
  load 0%float (fst p) (snd p + k).

(* ================================================================== *)
(** * CentroidDissimilarity *)

Record CentroidDissimilarity : Set := {
  data : list t_float;
  dimension : t_index;
  count : t_index;
  centroidStorage : list t_float;
  members : list t_index
}.

(** [std::vector<T>(n)] either obtains [n] elements or throws
    [std::bad_alloc]; which one is the allocator's decision. *)
Definition allocate (can_allocate : Z -> bool) (n : Z) : outcome unit :=
  if can_allocate n then Normal tt else Throws bad_alloc.

(** The constructor: zero-filled centroid storage of [(sampleCount-1)*dim]
    elements, [2*sampleCount-1] member counts, the first [count] set to 1. *)
Definition CentroidDissimilarity_new (can_allocate : Z -> bool)
    (input : list t_float) (sampleCount dim : t_index)
  : outcome CentroidDissimilarity :=
  let csize := if 1 <? sampleCount then (sampleCount - 1) * dim else 0 in
  let msize := if 0 <? sampleCount then 2 * sampleCount - 1 else 0 in
  _ <- allocate can_allocate csize ;;
  _ <- allocate can_allocate msize ;;
  Normal {| data := input;
            dimension := dim;
            count := sampleCount;
            centroidStorage := repeat 0%float (Z.to_nat csize);
            members := for_loop (Z.to_nat sampleCount) 0
                         (fun i m => store m i 1)
                         (repeat 0 (Z.to_nat msize)) |}.

Definition basePointer (st : CentroidDissimilarity) (index : t_index) : pointer :=
  (data st, index * dimension st).

Definition extendedPointer (st : CentroidDissimilarity) (index : t_index) : pointer :=
  if index <? count st then basePointer st index
  else (centroidStorage st, (index - count st) * dimension st).

(** [centroidPointer(index)], as an offset into [centroidStorage]. *)
Definition centroidPointer (st : CentroidDissimilarity) (index : t_index) : Z :=
  (index - count st) * dimension st.

(** The accumulation loop shared by both distance functions:
    [sum += diff * diff] for [k = 0 .. dimension-1], in that order. *)
Definition squared_sum (pi pj : pointer) (dim : t_index) : t_float :=
  for_loop (Z.to_nat dim) 0
    (fun k sum => let diff := (deref pi k - deref pj k)%float in
                  (sum + diff * diff)%float)
    0%float.

(** [sqeuclidean<checkNaN>(i, j)]. *)
Definition sqeuclidean (checkNaN : bool) (st : CentroidDissimilarity)
    (i j : t_index) : outcome t_float :=
  let sum := squared_sum (basePointer st i) (basePointer st j) (dimension st) in
  if checkNaN && fc_isnan sum then Throws nan_error else Normal sum.

Definition sqeuclidean_extended (st : CentroidDissimilarity)
    (i j : t_index) : outcome t_float :=
  let sum := squared_sum (extendedPointer st i) (extendedPointer st j) (dimension st) in
  if fc_isnan sum then Throws nan_error else Normal sum.

(** One iteration of the loop of [merge]: [pn[k] = (pi[k]*mi + pj[k]*mj) / denom].
    The sources are read from the storage as it is at that iteration. *)
Definition merge_body (st : CentroidDissimilarity) (i j newNode : t_index)
    (mi mj denom : t_float) (k : Z) (storage : list t_float) : list t_float :=
  let cur := {| data := data st; dimension := dimension st; count := count st;
                centroidStorage := storage; members := members st |} in
  let pi := extendedPointer cur i in
  let pj := extendedPointer cur j in
  store storage (centroidPointer st newNode + k)
        ((deref pi k * mi + deref pj k * mj) / denom)%float.

Definition merge (st : CentroidDissimilarity) (i j newNode : t_index)
  : CentroidDissimilarity :=
  let mi := index_to_float (load 0 (members st) i) in
  let mj := index_to_float (load 0 (members st) j) in
  let denom := (mi + mj)%float in
  let storage := for_loop (Z.to_nat (dimension st)) 0
                   (merge_body st i j newNode mi mj denom) (centroidStorage st) in
  {| data := data st; dimension := dimension st; count := count st;
     centroidStorage := storage;
     members := store (members st) newNode
                  (load 0 (members st) i + load 0 (members st) j) |}.

Definition merge_weighted_body (st : CentroidDissimilarity) (i j newNode : t_index)
    (k : Z) (storage : list t_float) : list t_float :=
  let cur := {| data := data st; dimension := dimension st; count := count st;
                centroidStorage := storage; members := members st |} in
  let pi := extendedPointer cur i in
  let pj := extendedPointer cur j in
  store storage (centroidPointer st newNode + k)
        (0.5 * (deref pi k + deref pj k))%float.

Definition merge_weighted (st : CentroidDissimilarity) (i j newNode : t_index)
  : CentroidDissimilarity :=
  let storage := for_loop (Z.to_nat (dimension st)) 0
                   (merge_weighted_body st i j newNode) (centroidStorage st) in
  {| data := data st; dimension := dimension st; count := count st;
     centroidStorage := storage;
     members := store (members st) newNode
                  (load 0 (members st) i + load 0 (members st) j) |}.

Definition ward (st : CentroidDissimilarity) (i j : t_index) : outcome t_float :=
  sqeuclidean true st i j.

Definition ward_initial (st : CentroidDissimilarity) (i j : t_index) : outcome t_float :=
  sqeuclidean true st i j.

Definition ward_initial_conversion (value : t_float) : t_float :=
  (value * 0.5)%float.

Definition ward_extended (st : CentroidDissimilarity) (i j : t_index) : outcome t_float :=
  sqeuclidean_extended st i j.

(* ================================================================== *)
(** * The engine's side: merge events and the engine as a client *)

(** Modelled from the spec: [struct node], declared in
    [fastcluster_internal.hpp] (absent): a merge event, "a triple
    (left_index, right_index, raw_distance)". *)
Record node : Set := { node1 : t_index; node2 : t_index; dist : t_float }.

(** Modelled from the spec: [node]'s [operator<], declared in
    [fastcluster_internal.hpp] (absent); events are ordered by distance
    alone ("keyed on distance"). *)
Definition node_lt (a b : node) : bool := (dist a <? dist b)%float.

(** Modelled from the spec: [cluster_result], declared in
    [fastcluster_internal.hpp] (absent): a results buffer of [size] merge
    events, allocated once. *)
Definition cluster_result : Set := list node.

(** Modelled from the spec: the constructor [cluster_result(size)], which
    obtains the buffer ("allocated once"). *)
Definition cluster_result_new (can_allocate : Z -> bool) (size : t_index)
  : outcome unit :=
  allocate can_allocate size.

(** Modelled from the spec: [cluster_result::sqrt], declared in
    [fastcluster_internal.hpp] (absent): "converts every stored squared
    distance into a true Euclidean distance via square root". *)
Definition cluster_result_sqrt (r : cluster_result) : cluster_result :=
  map (fun e => {| node1 := node1 e; node2 := node2 e;
                   dist := PrimFloat.sqrt (dist e) |}) r.

Definition postprocess (result : cluster_result) : cluster_result :=
  cluster_result_sqrt result.

(** The engine is a client of [CentroidDissimilarity]: it asks for distances,
    announces merges, may throw by itself, and ends with its merge events.
    A program of this type is one such client, with a continuation for each
    answer.  No handler inside the engine is modelled: an exception thrown by
    a distance query leaves the engine. *)
Inductive engine_program : Type :=
| Finish (events : cluster_result)
| Throw (e : thrown)
| Sqeuclidean (checkNaN : bool) (i j : t_index) (k : t_float -> engine_program)
| SqeuclideanExtended (i j : t_index) (k : t_float -> engine_program)
| Merge (i j newNode : t_index) (k : engine_program)
| MergeWeighted (i j newNode : t_index) (k : engine_program).

(** Running a client against the dissimilarity model. *)
Fixpoint run (p : engine_program) (st : CentroidDissimilarity)
  : outcome (cluster_result * CentroidDissimilarity) :=
  match p with
  | Finish events => Normal (events, st)
  | Throw e => Throws e
  | Sqeuclidean checkNaN i j k =>
      d <- sqeuclidean checkNaN st i j ;; run (k d) st
  | SqeuclideanExtended i j k =>
      d <- sqeuclidean_extended st i j ;; run (k d) st
  | Merge i j newNode k => run k (merge st i j newNode)
  | MergeWeighted i j newNode k => run k (merge_weighted st i j newNode)
  end.

(** Whether the run of a client reaches a distance computed with the NaN
    check ([sqeuclidean<true>], hence [ward] and [ward_initial], or
    [sqeuclidean_extended], hence [ward_extended]) whose sum is NaN. *)
Fixpoint computes_nan_distance (p : engine_program) (st : CentroidDissimilarity)
  : bool :=
  match p with
  | Finish _ => false
  | Throw _ => false
  | Sqeuclidean checkNaN i j k =>
      let sum := squared_sum (basePointer st i) (basePointer st j) (dimension st) in
      if checkNaN && fc_isnan sum then true else computes_nan_distance (k sum) st
  | SqeuclideanExtended i j k =>
      let sum := squared_sum (extendedPointer st i) (extendedPointer st j)
                   (dimension st) in
      if fc_isnan sum then true else computes_nan_distance (k sum) st
  | Merge i j newNode k => computes_nan_distance k (merge st i j newNode)
  | MergeWeighted i j newNode k =>
      computes_nan_distance k (merge_weighted st i j newNode)
  end.

(** What the code takes from outside this translation unit. *)
Record Platform : Type := {
  (** [MAX_INDEX], the largest value of [t_index]. *)
  MAX_INDEX : Z;
  (** Whether the allocator grants a block of that many elements. *)
  can_allocate : Z -> bool;
  (** [generic_linkage_vector_alternative<METHOD_VECTOR_CENTROID>(N, dist, result)]
      for each [N]. *)
  generic_linkage_vector_alternative : t_index -> engine_program
}.

(* ================================================================== *)
(** * union_find and std::stable_sort *)

(** Modelled from the spec: [union_find], declared in
    [fastcluster_internal.hpp] (absent): "a structure mapping each element to
    its current representative cluster, supporting union and find", over the
    index space [0, 2N-2], where a union puts both sides "under the new
    internal node's identity".  A parent of 0 marks a representative (no
    internal node has index 0). *)
Record union_find : Set := { parent : list t_index; nextparent : t_index }.

(** Modelled from the spec: the constructor [union_find(size)]: every index
    of [0, 2*size-2] is its own representative, and the first union creates
    node [size]. *)
Definition union_find_new (size : t_index) : union_find :=
  {| parent := repeat 0 (Z.to_nat (if 0 <? size then 2 * size - 1 else 0));
     nextparent := size |}.

(** Modelled from the spec: [Find], the current representative of [idx],
    reached by following parents; the chain is no longer than the array. *)
Fixpoint Find_from (fuel : nat) (parent : list t_index) (idx : t_index) : t_index :=
  match fuel with
  | O => idx
  | S fuel' =>
      let p := load 0 parent idx in
      if p =? 0 then idx else Find_from fuel' parent p
  end.

Definition Find (u : union_find) (idx : t_index) : t_index :=
  Find_from (length (parent u)) (parent u) idx.

(** Modelled from the spec: [Union], which puts both sides under the next
    internal node. *)
Definition Union (u : union_find) (a b : t_index) : union_find :=
  {| parent := store (store (parent u) b (nextparent u)) a (nextparent u);
     nextparent := nextparent u + 1 |}.

(** [std::stable_sort] over [node]'s [operator<]: an insertion sort that
    moves an element only past strictly smaller ones, so equal keys keep
    their order. *)
Fixpoint insert_node (x : node) (l : list node) : list node :=
  match l with
  | [] => [x]
  | y :: t => if node_lt y x then y :: insert_node x t else x :: y :: t
  end.

Fixpoint stable_sort (l : list node) : list node :=
  match l with
  | [] => []
  | x :: t => insert_node x (stable_sort t)
  end.

(* ================================================================== *)
(** * LinkageOutput and generateSciPyDendrogram *)

Record LinkageOutput : Set := { buffer : list t_float; cursor : Z }.

Definition LinkageOutput_new (buf : list t_float) : LinkageOutput :=
  {| buffer := buf; cursor := 0 |}.

(** [*(cursor++) = x]. *)
Definition put (o : LinkageOutput) (x : t_float) : LinkageOutput :=
  {| buffer := store (buffer o) (cursor o) x; cursor := cursor o + 1 |}.

Definition append (o : LinkageOutput) (n1 n2 : t_index)
    (distance size : t_float) : LinkageOutput :=
  let o2 :=
    if n1 <? n2
    then put (put o (index_to_float n1)) (index_to_float n2)
    else put (put o (index_to_float n2)) (index_to_float n1) in
  put (put o2 distance) size.

(** Modelled from the spec: the macro [Z_(r, c)] of
    [fastcluster_internal.hpp] (absent): column [c] of row [r] of the
    four-column output matrix [Z], here [Zmat] ("the previously emitted row's stored size
    field"). *)
Definition Z_ (Zmat : list t_float) (r c : Z) : t_float :=
  load 0%float Zmat (r * 4 + c).

(** The size argument of [output.append]:
    [((node1 < N) ? 1 : Z_(node1 - N, 3)) + ((node2 < N) ? 1 : Z_(node2 - N, 3))]. *)
Definition side_size (Zmat : list t_float) (N n : t_index) : t_float :=
  if n <? N then 1%float else Z_ Zmat (n - N) 3.

(** The statement [output.append(node1, node2, entry->dist, ... + ...)]: the
    size is computed from the matrix as it is before the row is written. *)
Definition emit_row (N : t_index) (output : LinkageOutput)
    (n1 n2 : t_index) (distance : t_float) : LinkageOutput :=
  append output n1 n2 distance
    (side_size (buffer output) N n1 + side_size (buffer output) N n2)%float.

(** The loop body when the entry's own indices are used ([sorted]). *)
Definition emit_entry (N : t_index) (output : LinkageOutput) (entry : node)
  : LinkageOutput :=
  emit_row N output (node1 entry) (node2 entry) (dist entry).

(** The body of the loop over the entries, on the loop's state: the
    union-find structure and the output writer (whose block is the matrix). *)
Definition encode_entry (sorted : bool) (N : t_index)
    (s : union_find * LinkageOutput) (entry : node) : union_find * LinkageOutput :=
  let '(nodes, output) := s in
  let '(n1, n2, nodes') :=
    if sorted then (node1 entry, node2 entry, nodes)
    else
      let a := Find nodes (node1 entry) in
      let b := Find nodes (node2 entry) in
      (a, b, Union nodes a b) in
  (nodes', emit_row N output n1 n2 (dist entry)).

(** [generateSciPyDendrogram<sorted>(Z, Z2, N)], with [Zmat] for [Z]: the entries are
    [Z2[0] .. Z2[N-1]), the first [N-1] events. *)
Definition generateSciPyDendrogram (sorted : bool) (Zmat : list t_float)
    (Z2 : cluster_result) (N : t_index) : list t_float :=
  let nodes := union_find_new (if sorted then 0 else N) in
  let entries := firstn (Z.to_nat (N - 1)) Z2 in
  let entries := if sorted then entries else stable_sort entries in
  buffer (snd (fold_left (encode_entry sorted N) entries
                 (nodes, LinkageOutput_new Zmat))).

(* ================================================================== *)
(** * The engine's contract and the encoder in the spec's words *)

Definition mem (x : Z) (l : list Z) : bool := existsb (Z.eqb x) l.

(** Modelled from the spec: the contract of the engine (the function
    itself is in [fastcluster_internal.hpp], absent).  Each merge event
    references two different existing nodes, leaf or internal, "not yet
    consumed as the two parents of a later internal node", and creates "the
    next sequential index starting at N".  [roots] are the nodes not yet
    consumed, [next] the index of the node the next event creates. *)
Fixpoint merge_forest (next : t_index) (roots : list t_index)
    (events : list node) : bool :=
  match events with
  | [] => true
  | e :: rest =>
      mem (node1 e) roots && mem (node2 e) roots
      && negb (node1 e =? node2 e)
      && merge_forest (next + 1)
           (next :: remove Z.eq_dec (node1 e) (remove Z.eq_dec (node2 e) roots))
           rest
  end.

(** The leaves [0 .. N-1]. *)
Definition leaves (N : t_index) : list t_index :=
  map Z.of_nat (seq 0 (Z.to_nat N)).

(** "Exactly N-1 merge events", forming a merge tree over the [N] leaves. *)
Definition valid_merges (N : t_index) (events : list node) : bool :=
  (Z.of_nat (length events) =? N - 1) && merge_forest N (leaves N) events.

(** Non-decreasing distances: no event is strictly smaller than the one
    before it. *)
Fixpoint sorted_by_distance (events : list node) : bool :=
  match events with
  | a :: (b :: _) as rest => negb (node_lt b a) && sorted_by_distance rest
  | _ => true
  end.

(** The relabelling pass in the spec's words: "for each event, resolve
    left_index and right_index to their current set representatives before
    emission, then union them under the new internal node's identity". *)
Fixpoint relabel_events (nodes : union_find) (events : list node) : list node :=
  match events with
  | [] => []
  | e :: rest =>
      let a := Find nodes (node1 e) in
      let b := Find nodes (node2 e) in
      {| node1 := a; node2 := b; dist := dist e |}
        :: relabel_events (Union nodes a b) rest
  end.

(** The sum of [f] over a list of nodes. *)
Definition list_sum_over (f : Z -> Z) (l : list Z) : Z :=
  fold_right (fun x acc => f x + acc) 0 l.

(** The number of leaves under node [n], given the leaf counts [sizes] of
    the internal nodes created so far. *)
Definition weight (N : t_index) (sizes : list Z) (n : t_index) : Z :=
  if n <? N then 1 else load 0 sizes (n - N).

(** The leaf counts of the internal nodes, in the order of their creation. *)
Fixpoint subtree_sizes (N : t_index) (sizes : list Z) (events : list node)
  : list Z :=
  match events with
  | [] => sizes
  | e :: rest =>
      subtree_sizes N
        (sizes ++ [weight N sizes (node1 e) + weight N sizes (node2 e)]) rest
  end.

(* ================================================================== *)
(** * fastcluster_compute_centroid_linkage *)

(** [size_t] is taken to be 64 bits wide. *)
Definition size_t_modulus : Z := 2 ^ 64.

(** The handlers of the [try] block, in their order. *)
Definition catch_status (e : thrown) : fastcluster_wrapper_status :=
  match e with
  | bad_alloc => FASTCLUSTER_WRAPPER_ALLOCATION_FAILURE
  | nan_error => FASTCLUSTER_WRAPPER_RUNTIME_ERROR
  | std_exception _ => FASTCLUSTER_WRAPPER_RUNTIME_ERROR
  | foreign_value _ => FASTCLUSTER_WRAPPER_UNKNOWN_ERROR
  end.

(** [requiredLength], a [size_t] product. *)
Definition requiredLength (pointCount : Z) : Z :=
  if 1 <? pointCount then ((pointCount - 1) * 4) mod size_t_modulus else 0.

(** The [try] block: the output block after it, or what it threw. *)
Definition try_block (P : Platform) (input : list t_float)
    (pointCount dim : Z) (dendrogramOut : list t_float)
  : outcome (list t_float) :=
  let N := pointCount in
  dist0 <- CentroidDissimilarity_new (can_allocate P) input N dim ;;
  _ <- cluster_result_new (can_allocate P) (N - 1) ;;
  '(result, _) <- run (generic_linkage_vector_alternative P N) dist0 ;;
  let result := postprocess result in
  Normal (generateSciPyDendrogram true dendrogramOut result N).

(** The merge events the engine hands back on this input, when the
    constructor and the engine both return. *)
Definition engine_events (P : Platform) (input : list t_float)
    (pointCount dim : Z) : option cluster_result :=
  match CentroidDissimilarity_new (can_allocate P) input pointCount dim with
  | Normal dist0 =>
      match run (generic_linkage_vector_alternative P pointCount) dist0 with
      | Normal (result, _) => Some result
      | Throws _ => None
      end
  | Throws _ => None
  end.

(** The boundary function.  It returns the status together with the output
    block as the call leaves it ([None] when [dendrogramOut] is null). *)
Definition fastcluster_compute_centroid_linkage (P : Platform)
    (data : option (list t_float)) (pointCount dimension : Z)
    (dendrogramOut : option (list t_float)) (dendrogramLength : Z)
  : fastcluster_wrapper_status * option (list t_float) :=
  match data, dendrogramOut with
  | Some input, Some out =>
      if pointCount =? 0 then (FASTCLUSTER_WRAPPER_SUCCESS, Some out)
      else if dimension =? 0 then (FASTCLUSTER_WRAPPER_INVALID_ARGUMENT, Some out)
      else if (MAX_INDEX P <? pointCount) || (MAX_INDEX P <? dimension)
      then (FASTCLUSTER_WRAPPER_INDEX_OVERFLOW, Some out)
      else
        if dendrogramLength <? requiredLength pointCount
        then (FASTCLUSTER_WRAPPER_OUTPUT_TOO_SMALL, Some out)
        else if pointCount =? 1 then (FASTCLUSTER_WRAPPER_SUCCESS, Some out)
        else
          match try_block P input pointCount dimension out with
          | Normal out' => (FASTCLUSTER_WRAPPER_SUCCESS, Some out')
          | Throws e => (catch_status e, Some out)
          end
  | _, _ => (FASTCLUSTER_WRAPPER_INVALID_ARGUMENT, dendrogramOut)
  end.

(** The cells of the output block a call writes: the [N-1] rows of four
    cells on success, none otherwise. *)
Definition written_cells (status : fastcluster_wrapper_status) (pointCount : Z)
  : nat :=
  match status with
  | FASTCLUSTER_WRAPPER_SUCCESS => Z.to_nat (4 * (pointCount - 1))
  | _ => 0%nat
  end.

(* ================================================================== *)
(** * A small engine and platform, for running the model *)

(** A greedy centroid engine for two or three points, written against the
    operations of [CentroidDissimilarity]: all initial distances with the
    NaN check, the closest pair merged into node [N], then the distance from
    the remaining point to the new centroid.  For other [N] it refuses. *)
Definition small_engine (N : t_index) : engine_program :=
  if N =? 2 then
    Sqeuclidean true 1 0 (fun d =>
      Finish [ {| node1 := 0; node2 := 1; dist := d |} ])
  else if N =? 3 then
    Sqeuclidean true 1 0 (fun d10 =>
    Sqeuclidean true 2 0 (fun d20 =>
    Sqeuclidean true 2 1 (fun d21 =>
      let '(a, b, c, d) :=
        if (d10 <=? d20)%float && (d10 <=? d21)%float then (0, 1, 2, d10)
        else if (d20 <=? d21)%float then (0, 2, 1, d20)
        else (1, 2, 0, d21) in
      Merge a b 3 (
      SqeuclideanExtended c 3 (fun dc =>
        Finish [ {| node1 := a; node2 := b; dist := d |};
                 {| node1 := c; node2 := 3; dist := dc |} ])))))
  else Throw (std_exception 0).

Definition small_platform : Platform :=
  {| MAX_INDEX := 0x7fffffff;
     can_allocate := fun n => n <=? 0x7fffffff;
     generic_linkage_vector_alternative := small_engine |}.

(** Three points of the plane, [(0,0)], [(1,0)] and [(0.5,0.875)]: the third
    is closer to the centroid of the first two than they are to each other. *)
Definition triangle : list t_float :=
  [0; 0; 1; 0; 0.5; 0.875]%float.

(** The merge events of the triangle, squared distances as the engine
    leaves them: the second merge is the closer one. *)
Definition triangle_events : cluster_result :=
  [ {| node1 := 0; node2 := 1; dist := 1 |};
    {| node1 := 2; node2 := 3; dist := 0.765625 |} ]%float.

(** What a successful call on the triangle leaves in an eight-cell block. *)
Definition triangle_dendrogram : list t_float :=
  [0; 1; 1; 2; 2; 3; 0.875; 3]%float.

(** Merge events in non-decreasing order of distance, with the indices the
    engine's contract asks for. *)
Definition canonical_events : cluster_result :=
  [ {| node1 := 0; node2 := 1; dist := 0.5 |};
    {| node1 := 2; node2 := 3; dist := 1 |} ]%float.

(** The triangle with a NaN in the last coordinate. *)
Definition triangle_nan : list t_float :=
  [0; 0; 1; 0; 0.5; nan]%float.

(** ** Reading the sign of a double *)

(** A double that is not NaN and carries the sign bit [s]. *)
Definition sf_signed (s : bool) (r : spec_float) : bool :=
  match r with
  | S754_zero s' | S754_infinity s' | S754_finite s' _ _ => Bool.eqb s s'
  | S754_nan => false
  end.

(** ** Sample states of the dissimilarity object *)

(** The object the constructor builds for the triangle. *)
Definition unit_square_state : CentroidDissimilarity :=
  {| data := [0; 0; 1; 0; 0.5; 0.875]%float; dimension := 2; count := 3;
     centroidStorage := repeat 0%float 4; members := [1; 1; 1; 0; 0] |}.

(** The same for the triangle with a NaN in the last coordinate. *)
Definition nan_state : CentroidDissimilarity :=
  {| data := triangle_nan; dimension := 2; count := 3;
     centroidStorage := repeat 0%float 4; members := [1; 1; 1; 0; 0] |}.

(** Two points, the first with an infinite coordinate. *)
Definition infinite_state : CentroidDissimilarity :=
  {| data := [infinity; 0; 1; 2]%float; dimension := 2; count := 2;
     centroidStorage := repeat 0%float 2; members := [1; 1; 0] |}.


(* ================================================================== *)
(** * Facts about binary64 arithmetic *)

(** ** NaN and commutativity *)

Lemma SFcompare_refl_not_nan x : x <> S754_nan -> SFcompare x x = Some Eq.
Proof.
  destruct x as [s|s| |s m e]; intros H; try congruence; simpl.
  - reflexivity.
  - destruct s; reflexivity.
  - rewrite Z.compare_refl, Pos.compare_cont_refl. destruct s; reflexivity.
Qed.

Lemma fc_isnan_spec x : fc_isnan x = true <-> Prim2SF x = S754_nan.
Proof.
  unfold fc_isnan. rewrite FloatAxioms.eqb_spec. unfold SFeqb.
  destruct (Prim2SF x) as [s|s| |s m e] eqn:E.
  4: rewrite SFcompare_refl_not_nan by discriminate.
  all: simpl; try (destruct s); split; intros H; (reflexivity || discriminate).
Qed.

Lemma float_mul_comm (x y : float) : (x * y = y * x)%float.
Proof.
  apply Prim2SF_inj. rewrite !FloatAxioms.mul_spec. unfold SF64mul.
  destruct (Prim2SF x) as [s|s| |s m e], (Prim2SF y) as [s'|s'| |s' m' e']; simpl;
    rewrite ?(xorb_comm s s'); try reflexivity.
  rewrite (Pos.mul_comm m m'), (Z.add_comm e e'). reflexivity.
Qed.

(** ** Integers below [2^53] are represented exactly

    [canon s z] is the binary64 datum of the integer [z]. *)

Lemma digits2_pos_log2 p : Zpos (digits2_pos p) = Z.log2 (Zpos p) + 1.
Proof.
  assert (E : forall q, digits2_pos q = Pos.size q)
    by (induction q; simpl; congruence).
  destruct p; simpl; rewrite ?E; lia.
Qed.

Lemma Pos_iter_xO mx n : Zpos (Pos.iter xO mx n) = Zpos mx * 2 ^ Zpos n.
Proof.
  induction n as [|n IH] using Pos.peano_ind.
  - simpl. lia.
  - rewrite Pos.iter_succ, Pos2Z.inj_xO, IH, Pos2Z.inj_succ, Z.pow_succ_r; lia.
Qed.

Lemma shr_1_even m :
  0 < m -> shr_1 (Build_shr_record (2 * m) false false) = Build_shr_record m false false.
Proof. destruct m; simpl; intros; (lia || reflexivity). Qed.

Lemma pow2_xO n : 2 ^ Zpos n~0 = 2 ^ Zpos n * 2 ^ Zpos n.
Proof. rewrite <- Z.pow_add_r by lia. f_equal. lia. Qed.

Lemma pow2_xI n : 2 ^ Zpos n~1 = 2 * (2 ^ Zpos n * 2 ^ Zpos n).
Proof. rewrite <- pow2_xO, <- Z.pow_succ_r by lia. f_equal. Qed.

Lemma iter_pos_shr_exact n :
  forall m, 0 < m ->
    iter_pos shr_1 n (Build_shr_record (m * 2 ^ Zpos n) false false)
    = Build_shr_record m false false.
Proof.
  induction n as [n IH|n IH|]; intros m Hm.
  - change (iter_pos shr_1 n~1 ?x) with (iter_pos shr_1 n (iter_pos shr_1 n (shr_1 x))).
    rewrite pow2_xI.
    replace (m * (2 * (2 ^ Zpos n * 2 ^ Zpos n))) with (2 * ((m * 2 ^ Zpos n) * 2 ^ Zpos n)) by ring.
    assert (0 < 2 ^ Zpos n) by (apply Z.pow_pos_nonneg; lia).
    rewrite shr_1_even by nia. rewrite IH by nia. apply IH; lia.
  - change (iter_pos shr_1 n~0 ?x) with (iter_pos shr_1 n (iter_pos shr_1 n x)).
    rewrite pow2_xO, Z.mul_assoc.
    assert (0 < 2 ^ Zpos n) by (apply Z.pow_pos_nonneg; lia).
    rewrite IH by nia. apply IH; lia.
  - change (iter_pos shr_1 1 ?x) with (shr_1 x). rewrite Z.mul_comm.
    apply shr_1_even; lia.
Qed.

Lemma shr_fexp_canonical (m : positive) e :
  Z.log2 (Zpos m) = 52 -> -1074 <= e ->
  shr_fexp prec emax (Zpos m) e loc_Exact
  = (Build_shr_record (Zpos m) false false, e).
Proof.
  intros Hm He. unfold shr_fexp, Zdigits2. rewrite digits2_pos_log2, Hm.
  unfold fexp, SpecFloat.emin, prec, emax.
  replace (Z.max (52 + 1 + e - 53) (3 - 1024 - 53) - e) with 0 by lia.
  reflexivity.
Qed.

Lemma round_tail_canonical s (m : positive) e :
  Z.log2 (Zpos m) = 52 -> -1074 <= e <= 971 ->
  (let '(mrs, e') := shr_fexp prec emax (Zpos m) e loc_Exact in
   match shr_m mrs with
   | 0 => S754_zero s
   | Zpos m' => if e' <=? emax - prec then S754_finite s m' e' else S754_infinity s
   | Zneg _ => S754_nan
   end) = S754_finite s m e.
Proof.
  intros Hm He. rewrite shr_fexp_canonical by lia. cbn [shr_m].
  destruct (Z.leb_spec e (emax - prec)); [reflexivity | unfold emax, prec in *; lia].
Qed.

Lemma binary_round_aux_canonical s (m : positive) e :
  Z.log2 (Zpos m) = 52 -> -1074 <= e <= 971 ->
  binary_round_aux prec emax s (Zpos m) e loc_Exact = S754_finite s m e.
Proof.
  intros Hm He. unfold binary_round_aux.
  rewrite shr_fexp_canonical by lia.
  cbn [shr_m loc_of_shr_record round_nearest_even].
  apply round_tail_canonical; assumption.
Qed.

Lemma binary_round_exact s mx ex z :
  0 < z -> Z.log2 z <= 52 -> ex <= 0 -> Zpos mx = z * 2 ^ (- ex) ->
  binary_round prec emax s mx ex = canon s z.
Proof.
  intros Hz Hl Hex Hmx.
  assert (Hd : Zpos (digits2_pos mx) = Z.log2 z - ex + 1).
  { rewrite digits2_pos_log2, Hmx, Z.log2_mul_pow2 by lia. lia. }
  assert (L0 : 0 <= Z.log2 z) by apply Z.log2_nonneg.
  assert (Hc : Z.log2 (z * 2 ^ (52 - Z.log2 z)) = 52).
  { rewrite Z.log2_mul_pow2 by lia. lia. }
  assert (Hpos : 0 < z * 2 ^ (52 - Z.log2 z)).
  { apply Z.mul_pos_pos; [lia | apply Z.pow_pos_nonneg; lia]. }
  unfold binary_round. rewrite Hd.
  replace (fexp prec emax (Z.log2 z - ex + 1 + ex)) with (Z.log2 z - 52)
    by (unfold fexp, SpecFloat.emin, prec, emax; lia).
  unfold shl_align, canon.
  destruct (Z.log2 z - 52 - ex) as [|p|p] eqn:E.
  - (* the mantissa already has 53 bits *)
    replace (- ex) with (52 - Z.log2 z) in Hmx by lia.
    rewrite <- Hmx in *. simpl Z.to_pos.
    replace (Z.log2 z - 52) with ex by lia.
    apply binary_round_aux_canonical; [assumption | lia].
  - (* more than 53 bits: the low bits are zero and are shifted out *)
    assert (Hsplit : Zpos mx = (z * 2 ^ (52 - Z.log2 z)) * 2 ^ Zpos p).
    { rewrite Hmx, <- Z.mul_assoc, <- Z.pow_add_r by lia. do 2 f_equal. lia. }
    unfold binary_round_aux.
    assert (F : shr_fexp prec emax (Zpos mx) ex loc_Exact
                = (Build_shr_record (z * 2 ^ (52 - Z.log2 z)) false false, Z.log2 z - 52)).
    { unfold shr_fexp, Zdigits2. rewrite Hd.
      replace (fexp prec emax (Z.log2 z - ex + 1 + ex) - ex) with (Zpos p)
        by (unfold fexp, SpecFloat.emin, prec, emax; lia).
      unfold shr, shr_record_of_loc. rewrite Hsplit, iter_pos_shr_exact by lia.
      f_equal. lia. }
    rewrite F. clear F. cbn [shr_m loc_of_shr_record round_nearest_even].
    destruct (z * 2 ^ (52 - Z.log2 z)) as [|q|q] eqn:Eq; try lia.
    simpl Z.to_pos. apply round_tail_canonical; [assumption | lia].
  - (* fewer than 53 bits: shifted left *)
    assert (Hm : Zpos (Pos.iter xO mx p) = z * 2 ^ (52 - Z.log2 z)).
    { rewrite Pos_iter_xO, Hmx, <- Z.mul_assoc, <- Z.pow_add_r by lia.
      do 2 f_equal. lia. }
    rewrite <- Hm in *. simpl Z.to_pos.
    apply binary_round_aux_canonical; [assumption | lia].
Qed.

Lemma log2_le_52 z : 0 < z < 2 ^ 53 -> Z.log2 z <= 52.
Proof. intros H. assert (Z.log2 z < 53) by (apply Z.log2_lt_pow2; lia). lia. Qed.

Lemma canon_valid s z :
  0 < z < 2 ^ 53 -> valid_binary (canon s z) = true.
Proof.
  intros H. pose proof (log2_le_52 z H). pose proof (Z.log2_nonneg z).
  assert (Hpos : 0 < z * 2 ^ (52 - Z.log2 z)).
  { apply Z.mul_pos_pos; [lia | apply Z.pow_pos_nonneg; lia]. }
  unfold canon, SpecFloat.valid_binary, bounded, canonical_mantissa.
  rewrite digits2_pos_log2, Z2Pos.id, Z.log2_mul_pow2 by lia.
  unfold fexp, SpecFloat.emin, prec, emax.
  apply andb_true_intro; split; [apply Z.eqb_eq | apply Z.leb_le]; lia.
Qed.

Lemma Prim2SF_index_to_float z :
  0 < z < 2 ^ 53 -> Prim2SF (index_to_float z) = canon false z.
Proof.
  intros H. unfold index_to_float.
  destruct (Z.ltb_spec z 0); [lia|].
  rewrite of_uint63_spec, Uint63.of_Z_spec, Z.mod_small.
  - destruct z as [|p|p]; try lia. simpl binary_normalize.
    apply binary_round_exact; try lia. apply log2_le_52; lia.
  - unfold wB, size. simpl. lia.
Qed.

Lemma index_to_float_0 : Prim2SF (index_to_float 0) = S754_zero false.
Proof. reflexivity. Qed.

Lemma canon_add a b :
  0 < a -> 0 < b -> a + b < 2 ^ 53 ->
  SF64add (canon false a) (canon false b) = canon false (a + b).
Proof.
  intros Ha Hb Hab.
  pose proof (log2_le_52 a ltac:(lia)). pose proof (log2_le_52 b ltac:(lia)).
  pose proof (Z.log2_nonneg a). pose proof (Z.log2_nonneg b).
  assert (Pa : 0 < a * 2 ^ (52 - Z.log2 a))
    by (apply Z.mul_pos_pos; [lia | apply Z.pow_pos_nonneg; lia]).
  assert (Pb : 0 < b * 2 ^ (52 - Z.log2 b))
    by (apply Z.mul_pos_pos; [lia | apply Z.pow_pos_nonneg; lia]).
  assert (align : forall m e e', e' <= e ->
            Zpos (fst (shl_align m e e')) = Zpos m * 2 ^ (e - e')).
  { intros m e e' He. unfold shl_align.
    destruct (e' - e) as [|p|p] eqn:E; simpl fst; try lia.
    - replace (e - e') with 0 by lia. lia.
    - rewrite Pos_iter_xO. do 2 f_equal. lia. }
  unfold SF64add, SFadd, canon. cbv zeta.
  set (ea := Z.log2 a - 52). set (eb := Z.log2 b - 52).
  set (ez := Z.min ea eb).
  rewrite !align by (subst ez; lia). unfold cond_Zopp.
  rewrite !Z2Pos.id by lia.
  assert (E : a * 2 ^ (52 - Z.log2 a) * 2 ^ (ea - ez)
              + b * 2 ^ (52 - Z.log2 b) * 2 ^ (eb - ez)
              = (a + b) * 2 ^ (- ez)).
  { rewrite <- !Z.mul_assoc, <- !Z.pow_add_r by (subst ez ea eb; lia).
    replace (52 - Z.log2 a + (ea - ez)) with (- ez) by (subst ea; lia).
    replace (52 - Z.log2 b + (eb - ez)) with (- ez) by (subst eb; lia).
    ring. }
  rewrite E.
  assert (Ps : 0 < (a + b) * 2 ^ (- ez))
    by (apply Z.mul_pos_pos; [lia | apply Z.pow_pos_nonneg; subst ez ea eb; lia]).
  destruct ((a + b) * 2 ^ (- ez)) as [|p|p] eqn:Ep; try lia.
  simpl binary_normalize.
  apply binary_round_exact; try (subst ez ea eb; lia).
  apply log2_le_52; lia.
Qed.

Lemma index_to_float_add a b :
  0 <= a -> 0 <= b -> a + b < 2 ^ 53 ->
  (index_to_float a + index_to_float b)%float = index_to_float (a + b).
Proof.
  intros Ha Hb Hab. apply Prim2SF_inj. rewrite FloatAxioms.add_spec.
  destruct (Z.eq_dec a 0) as [->|Na]; destruct (Z.eq_dec b 0) as [->|Nb].
  - reflexivity.
  - rewrite index_to_float_0. simpl (0 + b).
    rewrite Prim2SF_index_to_float by lia. reflexivity.
  - rewrite index_to_float_0, Z.add_0_r.
    rewrite Prim2SF_index_to_float by lia. reflexivity.
  - rewrite !Prim2SF_index_to_float by lia. apply canon_add; lia.
Qed.

Lemma canon_lt a b :
  0 < a -> a < b -> b < 2 ^ 53 ->
  SFltb (canon false a) (canon false b) = true.
Proof.
  intros Ha Hab Hb.
  pose proof (log2_le_52 a ltac:(lia)). pose proof (log2_le_52 b ltac:(lia)).
  pose proof (Z.log2_nonneg a). pose proof (Z.log2_nonneg b).
  assert (Hlog : Z.log2 a <= Z.log2 b) by (apply Z.log2_le_mono; lia).
  unfold SFltb, canon, SFcompare.
  destruct (Z.compare_spec (Z.log2 a - 52) (Z.log2 b - 52)) as [E|E|E];
    try reflexivity; try lia.
  replace (Z.log2 b) with (Z.log2 a) by lia.
  assert (P : 0 < 2 ^ (52 - Z.log2 a)) by (apply Z.pow_pos_nonneg; lia).
  assert (L : (Z.to_pos (a * 2 ^ (52 - Z.log2 a))
               < Z.to_pos (b * 2 ^ (52 - Z.log2 a)))%positive)
    by (assert (a * 2 ^ (52 - Z.log2 a) < b * 2 ^ (52 - Z.log2 a)) by nia; lia).
  unfold Pos.lt, Pos.compare in L. rewrite L. reflexivity.
Qed.

Lemma index_to_float_lt a b :
  0 <= a -> a < b -> b < 2 ^ 53 ->
  (index_to_float a <? index_to_float b)%float = true.
Proof.
  intros Ha Hab Hb. rewrite FloatAxioms.ltb_spec.
  destruct (Z.eq_dec a 0) as [->|Na].
  - rewrite index_to_float_0, Prim2SF_index_to_float by lia. reflexivity.
  - rewrite !Prim2SF_index_to_float by lia. apply canon_lt; lia.
Qed.

(** ** NaN is absorbing *)

Lemma nan_sub_l (x y : t_float) :
  fc_isnan x = true -> fc_isnan (x - y)%float = true.
Proof.
  rewrite !fc_isnan_spec, FloatAxioms.sub_spec. intros ->. reflexivity.
Qed.

Lemma nan_sub_r (x y : t_float) :
  fc_isnan y = true -> fc_isnan (x - y)%float = true.
Proof.
  rewrite !fc_isnan_spec, FloatAxioms.sub_spec. intros ->.
  destruct (Prim2SF x); reflexivity.
Qed.

Lemma nan_square (x : t_float) :
  fc_isnan x = true -> fc_isnan (x * x)%float = true.
Proof.
  rewrite !fc_isnan_spec, FloatAxioms.mul_spec. intros ->. reflexivity.
Qed.

Lemma nan_add_l (x y : t_float) :
  fc_isnan x = true -> fc_isnan (x + y)%float = true.
Proof.
  rewrite !fc_isnan_spec, FloatAxioms.add_spec. intros ->. reflexivity.
Qed.

Lemma nan_add_r (x y : t_float) :
  fc_isnan y = true -> fc_isnan (x + y)%float = true.
Proof.
  rewrite !fc_isnan_spec, FloatAxioms.add_spec. intros ->.
  destruct (Prim2SF x); reflexivity.
Qed.

(** ** The order on binary64 *)

Lemma SFcompare_antisym x y :
  SFcompare y x = option_map CompOpp (SFcompare x y).
Proof.
  destruct x as [s|s| |s m e], y as [s'|s'| |s' m' e']; simpl;
    try reflexivity;
    try (destruct s; reflexivity); try (destruct s'; reflexivity);
    try (destruct s, s'; reflexivity).
  destruct s, s'; simpl; try reflexivity;
    rewrite (Z.compare_antisym e e');
    destruct (e ?= e'); simpl; try reflexivity;
    rewrite (Pos.compare_cont_antisym m m' Eq); simpl;
    rewrite ?CompOpp_involutive; reflexivity.
Qed.

Lemma float_ltb_asym (x y : float) :
  (x <? y)%float = true -> (y <? x)%float = false.
Proof.
  rewrite !FloatAxioms.ltb_spec. unfold SFltb.
  rewrite (SFcompare_antisym (Prim2SF x) (Prim2SF y)).
  destruct (SFcompare (Prim2SF x) (Prim2SF y)) as [[ | | ]|]; simpl; congruence.
Qed.

Lemma SFcompare_Eq_inv x d :
  SFcompare x d = Some Eq ->
  x = d \/ exists s s', x = S754_zero s /\ d = S754_zero s'.
Proof.
  destruct x as [s|s| |s m e], d as [s'|s'| |s' m' e']; simpl;
    try discriminate; try (destruct s; discriminate);
    try (destruct s'; discriminate).
  - right. eauto.
  - destruct s, s'; try discriminate; auto.
  - intros H. left.
    assert (e = e' /\ m = m') as [-> ->].
    { change (Pos.compare_cont Eq m m') with (Pos.compare m m') in H.
      destruct s, s'; try discriminate;
        destruct (Z.compare_spec e e'); try discriminate;
        destruct (Pos.compare_spec m m'); try discriminate; auto. }
    destruct s, s'; try discriminate; reflexivity.
Qed.

Lemma SFcompare_Eq_trans x y d :
  SFcompare x d = Some Eq -> SFcompare y d = Some Eq -> SFcompare y x = Some Eq.
Proof.
  intros Ex Ey.
  destruct (SFcompare_Eq_inv _ _ Ex) as [->|(s1 & s1' & -> & Ed)]; [assumption|].
  destruct (SFcompare_Eq_inv _ _ Ey) as [->|(s2 & s2' & -> & _)].
  - rewrite Ed. reflexivity.
  - reflexivity.
Qed.

(** Two keys equal to a third are not strictly ordered. *)
Lemma float_eqb_not_ltb (x y d : float) :
  (x =? d)%float = true -> (y =? d)%float = true -> (y <? x)%float = false.
Proof.
  rewrite !FloatAxioms.eqb_spec, FloatAxioms.ltb_spec. unfold SFeqb, SFltb.
  destruct (SFcompare (Prim2SF x) (Prim2SF d)) as [[ | | ]|] eqn:Ex; try discriminate.
  destruct (SFcompare (Prim2SF y) (Prim2SF d)) as [[ | | ]|] eqn:Ey; try discriminate.
  intros _ _. rewrite (SFcompare_Eq_trans _ _ _ Ex Ey). reflexivity.
Qed.

(* ================================================================== *)
(** * Facts about blocks *)

Lemma length_store_nat {A} (m : list A) n x : length (store_nat m n x) = length m.
Proof.
  revert n; induction m as [|h t IH]; intros [|n]; simpl; auto.
Qed.

Lemma length_store {A} (m : list A) i x : length (store m i x) = length m.
Proof. unfold store. destruct (i <? 0); auto using length_store_nat. Qed.

Lemma nth_store_nat_same {A} (d : A) m n x :
  (n < length m)%nat -> nth n (store_nat m n x) d = x.
Proof.
  revert n; induction m as [|h t IH]; intros [|n] H; simpl in *;
    try lia; auto. apply IH. lia.
Qed.

Lemma nth_store_nat_other {A} (d : A) m n n' x :
  n <> n' -> nth n' (store_nat m n x) d = nth n' m d.
Proof.
  revert n n'; induction m as [|h t IH]; intros [|n] [|n'] H; simpl;
    try congruence; auto.
Qed.

Lemma load_store_same {A} (d : A) m i x :
  0 <= i < Z.of_nat (length m) -> load d (store m i x) i = x.
Proof.
  intros H. unfold load, store. destruct (Z.ltb_spec i 0); [lia|].
  apply nth_store_nat_same. lia.
Qed.

Lemma load_store_other {A} (d : A) m i j x :
  i <> j -> load d (store m i x) j = load d m j.
Proof.
  intros H. unfold load, store.
  destruct (Z.ltb_spec j 0); [reflexivity|].
  destruct (Z.ltb_spec i 0); [reflexivity|].
  apply nth_store_nat_other. lia.
Qed.

(* ================================================================== *)
(** * The boundary: validation and status mapping *)

Module Boundary.

(** Past the five validation steps the status is decided by the [try]
    block alone. *)
Lemma validated_call P input pointCount dimension out len :
  2 <= pointCount <= MAX_INDEX P ->
  1 <= dimension <= MAX_INDEX P ->
  requiredLength pointCount <= len ->
  fastcluster_compute_centroid_linkage P (Some input) pointCount dimension
    (Some out) len
  = match try_block P input pointCount dimension out with
    | Normal out' => (FASTCLUSTER_WRAPPER_SUCCESS, Some out')
    | Throws e => (catch_status e, Some out)
    end.
Proof.
  intros Hn Hd Hl. unfold fastcluster_compute_centroid_linkage.
  destruct (Z.eqb_spec pointCount 0); [lia|].
  destruct (Z.eqb_spec dimension 0); [lia|].
  destruct (Z.ltb_spec (MAX_INDEX P) pointCount); [lia|].
  destruct (Z.ltb_spec (MAX_INDEX P) dimension); [lia|].
  destruct (Z.ltb_spec len (requiredLength pointCount)); [lia|].
  destruct (Z.eqb_spec pointCount 1); [lia|].
  reflexivity.
Qed.

(** C9: the null-pointer test comes before the empty-input test.  A null
    [data] or a null [dendrogramOut] gives InvalidArgument whatever the other
    arguments are, [pointCount = 0] included; with [pointCount = 0] the call
    succeeds exactly when both pointers are non-null, and then leaves the
    output block as it was. *)
Theorem null_check_precedes_empty_input P data out pointCount dimension len :
  fst (fastcluster_compute_centroid_linkage P None pointCount dimension out len)
    = FASTCLUSTER_WRAPPER_INVALID_ARGUMENT
  /\ fst (fastcluster_compute_centroid_linkage P data pointCount dimension None len)
    = FASTCLUSTER_WRAPPER_INVALID_ARGUMENT
  /\ (fst (fastcluster_compute_centroid_linkage P data 0 dimension out len)
        = FASTCLUSTER_WRAPPER_SUCCESS
      <-> data <> None /\ out <> None)
  /\ (forall input buf,
        fastcluster_compute_centroid_linkage P (Some input) 0 dimension (Some buf) len
        = (FASTCLUSTER_WRAPPER_SUCCESS, Some buf)).
Proof.
  repeat split.
  - destruct data; reflexivity.
  - destruct data, out; simpl in *; congruence.
  - destruct data, out; simpl in *; congruence.
  - intros [Hd Ho]. destruct data, out; simpl; congruence.
Qed.

(** C6, as the code has it: with [dimension = 0] the status is
    InvalidArgument unless both pointers are non-null and [pointCount = 0],
    in which case the empty-input test, which comes first, gives Success. *)
Theorem dimension_zero_status P data out pointCount len :
  fst (fastcluster_compute_centroid_linkage P data pointCount 0 out len)
  = match data, out with
    | Some _, Some _ =>
        if pointCount =? 0 then FASTCLUSTER_WRAPPER_SUCCESS
        else FASTCLUSTER_WRAPPER_INVALID_ARGUMENT
    | _, _ => FASTCLUSTER_WRAPPER_INVALID_ARGUMENT
    end.
Proof.
  destruct data, out; simpl; try reflexivity.
  destruct (pointCount =? 0); reflexivity.
Qed.

(** C6 as stated fails: an empty input of dimension 0 with non-null pointers
    is answered with Success. *)
Lemma dimension_zero_not_always_invalid :
  ~ (forall P data out pointCount len,
       fst (fastcluster_compute_centroid_linkage P data pointCount 0 out len)
       = FASTCLUSTER_WRAPPER_INVALID_ARGUMENT).
Proof.
  intros H.
  specialize (H small_platform (Some []) (Some []) 0 0).
  discriminate H.
Qed.

(** C10: inside the validated call, whatever the [try] block throws is
    turned into a status by its type: [std::bad_alloc] into
    AllocationFailure; [nan_error] and every other exception derived from
    [std::exception] into RuntimeError; UnknownError only for a value that
    is neither [nan_error] nor derived from [std::exception].  The function
    itself always returns a status (its type has no [Throws] case), and the
    output block is the one it was given. *)
Theorem exceptions_mapped_by_type P input pointCount dimension out len e
    (nan_is_std : bool) :
  2 <= pointCount <= MAX_INDEX P ->
  1 <= dimension <= MAX_INDEX P ->
  requiredLength pointCount <= len ->
  try_block P input pointCount dimension out = Throws e ->
  let r := fastcluster_compute_centroid_linkage P (Some input) pointCount
             dimension (Some out) len in
  snd r = Some out
  /\ (e = bad_alloc -> fst r = FASTCLUSTER_WRAPPER_ALLOCATION_FAILURE)
  /\ (e = nan_error -> fst r = FASTCLUSTER_WRAPPER_RUNTIME_ERROR)
  /\ (e <> bad_alloc -> derives_std_exception nan_is_std e = true ->
        fst r = FASTCLUSTER_WRAPPER_RUNTIME_ERROR)
  /\ (fst r = FASTCLUSTER_WRAPPER_UNKNOWN_ERROR ->
        derives_std_exception nan_is_std e = false /\ e <> nan_error)
  /\ (derives_std_exception nan_is_std e = false -> e <> nan_error ->
        fst r = FASTCLUSTER_WRAPPER_UNKNOWN_ERROR).
Proof.
  intros Hn Hd Hl Ht r. subst r.
  rewrite validated_call, Ht by assumption. cbn [fst snd].
  destruct e; cbn [catch_status derives_std_exception];
    repeat split; intros; congruence.
Qed.

Lemma exceptions_mapped_by_type_witness :
  fst (fastcluster_compute_centroid_linkage small_platform (Some triangle) 4 2
         (Some (repeat 0%float 12)) 12)
  = FASTCLUSTER_WRAPPER_RUNTIME_ERROR.
Proof.
  destruct (exceptions_mapped_by_type small_platform triangle 4 2
              (repeat 0%float 12) 12 (std_exception 0) false)
    as (_ & _ & _ & Hstd & _).
  - simpl; lia.
  - simpl; lia.
  - vm_compute; discriminate.
  - reflexivity.
  - apply Hstd; [discriminate | reflexivity].
Defined.

End Boundary.

(* ================================================================== *)
(** * The dissimilarity model: NaN detection and the centroid update *)

Module Dissimilarity.

Section SquaredSum.
Variables pi pj : pointer.

Let body : Z -> t_float -> t_float :=
  fun k sum => let diff := (deref pi k - deref pj k)%float in
               (sum + diff * diff)%float.

Lemma sum_stays_nan n : forall k0 s,
  fc_isnan s = true -> fc_isnan (for_loop n k0 body s) = true.
Proof.
  induction n as [|n IH]; intros k0 s Hs; simpl; [assumption|].
  apply IH. unfold body. apply nan_add_l, Hs.
Qed.

Lemma sum_catches_nan n : forall k0 s k,
  k0 <= k < k0 + Z.of_nat n ->
  fc_isnan (deref pi k) = true \/ fc_isnan (deref pj k) = true ->
  fc_isnan (for_loop n k0 body s) = true.
Proof.
  induction n as [|n IH]; intros k0 s k Hk Hnan; [lia|].
  cbn [for_loop]. destruct (Z.eq_dec k k0) as [->|Hne].
  - apply sum_stays_nan. unfold body. apply nan_add_r, nan_square.
    destruct Hnan; [apply nan_sub_l | apply nan_sub_r]; assumption.
  - apply IH with (k := k); [lia | assumption].
Qed.

(** A NaN coordinate on either side makes the squared distance NaN. *)
Lemma squared_sum_nan_coordinate dim k :
  0 <= k < dim ->
  fc_isnan (deref pi k) = true \/ fc_isnan (deref pj k) = true ->
  fc_isnan (squared_sum pi pj dim) = true.
Proof.
  intros Hk Hnan. unfold squared_sum.
  apply (sum_catches_nan (Z.to_nat dim) 0 0%float k); [lia | assumption].
Qed.
End SquaredSum.

(** A NaN met by a checked distance ends the run of the engine there, with
    [nan_error]; the continuation is not entered. *)
Lemma nan_distance_throws p : forall st,
  computes_nan_distance p st = true -> run p st = Throws nan_error.
Proof.
  induction p as [ev|e|c i j k IH|i j k IH|i j n k IH|i j n k IH];
    intros st H; cbn [computes_nan_distance run] in *; try discriminate.
  - unfold sqeuclidean.
    destruct (c && fc_isnan _); [reflexivity|]. cbn [bind]. apply IH, H.
  - unfold sqeuclidean_extended.
    destruct (fc_isnan _); [reflexivity|]. cbn [bind]. apply IH, H.
  - apply IH, H.
  - apply IH, H.
Qed.

(** C2: in a validated call whose allocations succeed, as soon as the
    engine asks for a NaN-checked squared distance ([sqeuclidean<true>] or
    [sqeuclidean_extended]) and the sum is NaN, the computation stops: the
    status is RuntimeError, not Success, and no row has been written to the
    output block. *)
Theorem nan_distance_gives_runtime_error P input pointCount dimension out len st0 :
  2 <= pointCount <= MAX_INDEX P ->
  1 <= dimension <= MAX_INDEX P ->
  requiredLength pointCount <= len ->
  CentroidDissimilarity_new (can_allocate P) input pointCount dimension
    = Normal st0 ->
  can_allocate P (pointCount - 1) = true ->
  computes_nan_distance (generic_linkage_vector_alternative P pointCount) st0
    = true ->
  fastcluster_compute_centroid_linkage P (Some input) pointCount dimension
    (Some out) len
  = (FASTCLUSTER_WRAPPER_RUNTIME_ERROR, Some out).
Proof.
  intros Hn Hd Hl Hnew Halloc Hnan.
  rewrite Boundary.validated_call by assumption.
  unfold try_block. rewrite Hnew. cbn [bind].
  unfold cluster_result_new, allocate. rewrite Halloc. cbn [bind].
  rewrite (nan_distance_throws _ _ Hnan). reflexivity.
Qed.

Lemma nan_distance_gives_runtime_error_witness :
  fastcluster_compute_centroid_linkage small_platform (Some triangle_nan) 3 2
    (Some (repeat 7%float 8)) 8
  = (FASTCLUSTER_WRAPPER_RUNTIME_ERROR, Some (repeat 7%float 8)).
Proof.
  apply (nan_distance_gives_runtime_error small_platform triangle_nan 3 2
           (repeat 7%float 8) 8
           {| data := triangle_nan; dimension := 2; count := 3;
              centroidStorage := repeat 0%float 4;
              members := [1; 1; 1; 0; 0] |}).
  - simpl; lia.
  - simpl; lia.
  - vm_compute; discriminate.
  - reflexivity.
  - reflexivity.
  - vm_compute; reflexivity.
Defined.

Section CentroidUpdate.
Variable st : CentroidDissimilarity.
Variables i j newNode : t_index.

Let dim := dimension st.
Let off := centroidPointer st newNode.
Let mi := index_to_float (load 0 (members st) i).
Let mj := index_to_float (load 0 (members st) j).
Let denom := (mi + mj)%float.

(** Component [k] of the representative vector of node [a] when the centroid
    storage holds [s]. *)
Let rep (s : list t_float) (a : t_index) (k : Z) : t_float :=
  deref (extendedPointer
           {| data := data st; dimension := dimension st; count := count st;
              centroidStorage := s; members := members st |} a) k.

Let target (k : Z) : t_float :=
  ((rep (centroidStorage st) i k * mi + rep (centroidStorage st) j k * mj) / denom)%float.

(** [s] differs from the initial storage at most in the first [k0]
    components of the slot of [newNode]. *)
Let agrees (k0 : Z) (s : list t_float) : Prop :=
  forall p, ~ (off <= p < off + k0) ->
    load 0%float s p = load 0%float (centroidStorage st) p.

Lemma rep_unchanged s a k0 k :
  agrees k0 s -> 0 <= k0 <= k -> k < dim ->
  rep s a k = rep (centroidStorage st) a k.
Proof.
  intros Hag Hk0 Hk. unfold rep, extendedPointer, basePointer, deref.
  cbn [count dimension data centroidStorage].
  destruct (a <? count st); cbn [fst snd]; [reflexivity|].
  apply Hag. unfold off, centroidPointer. fold dim.
  destruct (Z.lt_trichotomy a newNode) as [H|[H|H]]; nia.
Qed.

Lemma merge_loop_invariant n : forall k0 s,
  0 <= k0 -> k0 + Z.of_nat n <= dim ->
  0 <= off -> off + dim <= Z.of_nat (length (centroidStorage st)) ->
  length s = length (centroidStorage st) ->
  agrees k0 s ->
  (forall k, 0 <= k < k0 -> load 0%float s (off + k) = target k) ->
  let s' := for_loop n k0 (merge_body st i j newNode mi mj denom) s in
  length s' = length (centroidStorage st)
  /\ agrees (k0 + Z.of_nat n) s'
  /\ (forall k, 0 <= k < k0 + Z.of_nat n -> load 0%float s' (off + k) = target k).
Proof.
  induction n as [|n IH]; intros k0 s Hk0 Hn Hoff Hfit Hlen Hag Hval.
  - cbn [for_loop]. replace (k0 + Z.of_nat 0) with k0 by lia. auto.
  - cbn [for_loop].
    assert (Hbody : merge_body st i j newNode mi mj denom k0 s
                    = store s (off + k0) (target k0)).
    { unfold merge_body, target. fold (rep s i k0) (rep s j k0).
      rewrite !(rep_unchanged s _ k0 k0) by (assumption || lia). reflexivity. }
    rewrite Hbody.
    replace (k0 + Z.of_nat (S n)) with ((k0 + 1) + Z.of_nat n) by lia.
    apply IH; try lia.
    + rewrite length_store. assumption.
    + intros p Hp. rewrite load_store_other by lia. apply Hag. lia.
    + intros k Hk. destruct (Z.eq_dec k k0) as [->|Hne].
      * apply load_store_same. lia.
      * rewrite load_store_other by lia. apply Hval. lia.
Qed.

End CentroidUpdate.

(** C3: [merge(i, j, newNode)] stores, in every one of the D components of
    the slot of [newNode], the member-count-weighted mean
    [(w_i * rep_i + w_j * rep_j) / (w_i + w_j)] of the two representative
    vectors as they were before the call, and sets the member count of
    [newNode] to [w_i + w_j].  The slot of [newNode] lies in the centroid
    storage and in the member-count array; the arithmetic is binary64. *)
Theorem merge_stores_weighted_mean (st : CentroidDissimilarity)
    (i j newNode : t_index) :
  count st <= newNode ->
  (newNode - count st + 1) * dimension st
    <= Z.of_nat (length (centroidStorage st)) ->
  0 <= newNode < Z.of_nat (length (members st)) ->
  let w_i := load 0 (members st) i in
  let w_j := load 0 (members st) j in
  let st' := merge st i j newNode in
  (forall k, 0 <= k < dimension st ->
     deref (extendedPointer st' newNode) k
     = ((index_to_float w_i * deref (extendedPointer st i) k
         + index_to_float w_j * deref (extendedPointer st j) k)
        / (index_to_float w_i + index_to_float w_j))%float)
  /\ load 0 (members st') newNode = w_i + w_j
  /\ data st' = data st /\ dimension st' = dimension st /\ count st' = count st.
Proof.
  intros Habove Hfit Hmem w_i w_j st'. split; [|split].
  - intros k Hk.
    assert (Hoff : 0 <= centroidPointer st newNode)
      by (unfold centroidPointer; nia).
    destruct (merge_loop_invariant st i j newNode
                (Z.to_nat (dimension st)) 0 (centroidStorage st))
      as (_ & _ & Hval); try lia.
    + unfold centroidPointer in *. nia.
    + intros p _. reflexivity.
    + unfold st', merge, extendedPointer, deref. cbn [count dimension centroidStorage].
      destruct (Z.ltb_spec newNode (count st)); [lia|]. cbn [fst snd].
      fold (centroidPointer st newNode).
      rewrite Hval by lia.
      rewrite (float_mul_comm (index_to_float w_i)), (float_mul_comm (index_to_float w_j)).
      destruct st; reflexivity.
  - unfold st', merge. cbn [members]. apply load_store_same. assumption.
  - repeat split.
Qed.

Lemma merge_stores_weighted_mean_witness :
  let st := {| data := triangle; dimension := 2; count := 3;
               centroidStorage := repeat 0%float 4;
               members := [1; 1; 1; 0; 0] |} in
  deref (extendedPointer (merge st 0 1 3) 3) 0 = 0.5%float
  /\ load 0 (members (merge st 0 1 3)) 3 = 2.
Proof.
  intros st.
  destruct (merge_stores_weighted_mean st 0 1 3) as (Hc & Hm & _).
  - simpl; lia.
  - simpl; lia.
  - simpl; lia.
  - split; [rewrite Hc by (simpl; lia); reflexivity | exact Hm].
Defined.

End Dissimilarity.

(* ================================================================== *)
(** * The engine's contract: merge forests and leaf counts *)

Module Contract.

Lemma mem_In x l : mem x l = true <-> In x l.
Proof.
  unfold mem. rewrite existsb_exists. split.
  - intros (y & Hy & E). apply Z.eqb_eq in E. subst. assumption.
  - intros H. exists x. split; [assumption | apply Z.eqb_refl].
Qed.

Lemma In_leaves N x : In x (leaves N) <-> 0 <= x < N.
Proof.
  unfold leaves. rewrite in_map_iff. split.
  - intros (n & <- & Hn). apply in_seq in Hn. lia.
  - intros H. exists (Z.to_nat x). split; [lia | apply in_seq; lia].
Qed.

Lemma NoDup_leaves N : NoDup (leaves N).
Proof.
  unfold leaves. generalize (seq_NoDup (Z.to_nat N) 0).
  induction 1 as [|n l Hn Hl IH]; simpl; constructor; [|assumption].
  rewrite in_map_iff. intros (m & E & Hm).
  apply Nat2Z.inj in E. subst. contradiction.
Qed.

Lemma length_leaves N : length (leaves N) = Z.to_nat N.
Proof. unfold leaves. rewrite length_map, length_seq. reflexivity. Qed.

Lemma NoDup_remove_Z x l : NoDup l -> NoDup (remove Z.eq_dec x l).
Proof.
  induction 1 as [|y l Hy Hl IH]; simpl; [constructor|].
  destruct (Z.eq_dec x y); [assumption|].
  constructor; [|assumption]. intros Hin. apply in_remove in Hin. tauto.
Qed.

Lemma length_remove_Z x l :
  NoDup l -> In x l -> S (length (remove Z.eq_dec x l)) = length l.
Proof.
  induction 1 as [|y l Hy Hl IH]; simpl; [tauto|]. intros [->|Hin].
  - destruct (Z.eq_dec x x); [|congruence].
    rewrite notin_remove by assumption. reflexivity.
  - destruct (Z.eq_dec x y) as [->|Hne]; [contradiction|].
    simpl. rewrite IH by assumption. reflexivity.
Qed.

(** The sum of [f] over a list of nodes. *)
Lemma sum_remove (f : Z -> Z) x l :
  NoDup l -> In x l ->
  list_sum_over f l = f x + list_sum_over f (remove Z.eq_dec x l).
Proof.
  induction 1 as [|y l Hy Hl IH]; simpl; [tauto|]. intros [->|Hin].
  - destruct (Z.eq_dec x x); [|congruence].
    rewrite notin_remove by assumption. reflexivity.
  - destruct (Z.eq_dec x y) as [->|Hne]; [contradiction|].
    simpl. rewrite IH by assumption. lia.
Qed.


(** ** What the contract gives about each event *)

Lemma merge_forest_refs l : forall next roots,
  NoDup roots -> (forall x, In x roots -> 0 <= x < next) ->
  merge_forest next roots l = true ->
  forall r e, nth_error l r = Some e ->
    0 <= node1 e < next + Z.of_nat r
    /\ 0 <= node2 e < next + Z.of_nat r
    /\ node1 e <> node2 e.
Proof.
  induction l as [|e0 l IH]; intros next roots Hnd Hrange Hf r e Hnth.
  - destruct r; discriminate.
  - cbn [merge_forest] in Hf.
    apply andb_prop in Hf as [Hf Hrest].
    apply andb_prop in Hf as [Hf Hne].
    apply andb_prop in Hf as [H1 H2].
    apply mem_In in H1, H2. apply negb_true_iff, Z.eqb_neq in Hne.
    pose proof (Hrange _ H1). pose proof (Hrange _ H2).
    destruct r as [|r].
    + injection Hnth as <-. lia.
    + cbn [nth_error] in Hnth.
      eapply IH in Hrest; [| | | exact Hnth].
      * lia.
      * constructor; [|auto using NoDup_remove_Z].
        intros Hin. apply in_remove in Hin as [Hin _].
        apply in_remove in Hin as [Hin _]. apply Hrange in Hin. lia.
      * intros x [<-|Hin]; [lia|].
        apply in_remove in Hin as [Hin _].
        apply in_remove in Hin as [Hin _]. apply Hrange in Hin. lia.
Qed.

Lemma valid_merges_refs N l :
  valid_merges N l = true ->
  Z.of_nat (length l) = N - 1
  /\ forall r e, nth_error l r = Some e ->
       0 <= node1 e < N + Z.of_nat r
       /\ 0 <= node2 e < N + Z.of_nat r
       /\ node1 e <> node2 e.
Proof.
  unfold valid_merges. intros H. apply andb_prop in H as [Hlen Hf].
  apply Z.eqb_eq in Hlen. split; [assumption|].
  apply (merge_forest_refs l N (leaves N)); auto using NoDup_leaves.
  intros x Hx. apply In_leaves in Hx. lia.
Qed.

(** The square root of the distances leaves the indices alone. *)
Lemma merge_forest_postprocess l : forall next roots,
  merge_forest next roots (postprocess l) = merge_forest next roots l.
Proof.
  unfold postprocess, cluster_result_sqrt.
  induction l as [|e l IH]; intros next roots; [reflexivity|].
  cbn [map merge_forest node1 node2]. rewrite IH. reflexivity.
Qed.

Lemma valid_merges_postprocess N l :
  valid_merges N (postprocess l) = valid_merges N l.
Proof.
  unfold valid_merges. rewrite merge_forest_postprocess.
  unfold postprocess, cluster_result_sqrt. rewrite length_map. reflexivity.
Qed.

(** ** Leaf counts *)

Lemma load_app_l {A} (d : A) a b p :
  p < Z.of_nat (length a) -> load d (a ++ b) p = load d a p.
Proof.
  intros H. unfold load. destruct (Z.ltb_spec p 0); [reflexivity|].
  apply app_nth1. lia.
Qed.

Lemma load_app_last {A} (d : A) a x :
  load d (a ++ [x]) (Z.of_nat (length a)) = x.
Proof.
  unfold load. destruct (Z.ltb_spec (Z.of_nat (length a)) 0); [lia|].
  rewrite Nat2Z.id, app_nth2, Nat.sub_diag by lia. reflexivity.
Qed.

Lemma subtree_sizes_app N l : forall s,
  exists t, subtree_sizes N s l = s ++ t /\ length t = length l.
Proof.
  induction l as [|e l IH]; intros s; cbn [subtree_sizes].
  - exists []. rewrite app_nil_r. auto.
  - destruct (IH (s ++ [weight N s (node1 e) + weight N s (node2 e)]))
      as (t & -> & Ht).
    eexists. rewrite <- app_assoc. split; [reflexivity|].
    cbn [length app]. congruence.
Qed.

Lemma weight_app N s t n :
  n < N + Z.of_nat (length s) -> weight N (s ++ t) n = weight N s n.
Proof.
  intros H. unfold weight. destruct (Z.ltb_spec n N); [reflexivity|].
  apply load_app_l. lia.
Qed.

Lemma weight_subtree_sizes N s l n :
  n < N + Z.of_nat (length s) -> weight N (subtree_sizes N s l) n = weight N s n.
Proof.
  intros H. destruct (subtree_sizes_app N l s) as (t & -> & _).
  apply weight_app, H.
Qed.

Lemma load_subtree_sizes N s l p :
  p < Z.of_nat (length s) -> load 0 (subtree_sizes N s l) p = load 0 s p.
Proof.
  intros H. destruct (subtree_sizes_app N l s) as (t & -> & _).
  apply load_app_l, H.
Qed.

(** The leaf count of the node created by event [r] is the sum of the leaf
    counts of its two sides. *)
Lemma subtree_sizes_row N l : forall s r e,
  (forall r e, nth_error l r = Some e ->
     node1 e < N + Z.of_nat (length s) + Z.of_nat r
     /\ node2 e < N + Z.of_nat (length s) + Z.of_nat r) ->
  nth_error l r = Some e ->
  let sz := subtree_sizes N s l in
  load 0 sz (Z.of_nat (length s) + Z.of_nat r)
  = weight N sz (node1 e) + weight N sz (node2 e).
Proof.
  induction l as [|e0 l IH]; intros s r e Hrefs Hnth.
  - destruct r; discriminate.
  - cbn [subtree_sizes].
    set (s1 := s ++ [weight N s (node1 e0) + weight N s (node2 e0)]).
    assert (Hs1 : length s1 = S (length s))
      by (unfold s1; rewrite length_app; cbn [length]; lia).
    destruct r as [|r].
    + injection Hnth as <-. destruct (Hrefs 0%nat e0 eq_refl) as [Ha Hb].
      cbv zeta. rewrite load_subtree_sizes by lia.
      rewrite !weight_subtree_sizes by lia.
      unfold s1. rewrite !weight_app by lia.
      replace (Z.of_nat (length s) + Z.of_nat 0) with (Z.of_nat (length s)) by lia.
      apply load_app_last.
    + cbn [nth_error] in Hnth.
      replace (Z.of_nat (length s) + Z.of_nat (S r))
        with (Z.of_nat (length s1) + Z.of_nat r) by lia.
      apply IH; [|assumption].
      intros r' e' Hr'. specialize (Hrefs (S r') e' Hr'). lia.
Qed.


Lemma list_sum_over_ext (f g : Z -> Z) l :
  (forall x, In x l -> f x = g x) -> list_sum_over f l = list_sum_over g l.
Proof.
  induction l as [|y l IH]; intros H; simpl; [reflexivity|].
  rewrite H, IH; auto with datatypes.
Qed.

Lemma list_sum_over_nonneg (f : Z -> Z) l :
  (forall x, In x l -> 1 <= f x) -> 0 <= list_sum_over f l.
Proof.
  induction l as [|y l IH]; intros H; simpl; [lia|].
  pose proof (H y (or_introl eq_refl)).
  assert (0 <= list_sum_over f l) by auto with datatypes. lia.
Qed.

(** The invariant of a merge forest: the leaf counts of the nodes not yet
    consumed add up to the number of leaves.  Hence every leaf count is
    between 1 and that number, and when a single node remains its leaf
    count is that number. *)
Lemma merge_forest_sizes N l : forall next roots s T,
  next = N + Z.of_nat (length s) ->
  NoDup roots -> (forall x, In x roots -> 0 <= x < next) ->
  (forall x, In x roots -> 1 <= weight N s x) ->
  list_sum_over (weight N s) roots = T ->
  merge_forest next roots l = true ->
  let sz := subtree_sizes N s l in
  (forall p, Z.of_nat (length s) <= p < Z.of_nat (length s) + Z.of_nat (length l) ->
     1 <= load 0 sz p <= T)
  /\ (length roots = S (length l) -> l <> [] ->
      load 0 sz (Z.of_nat (length s) + Z.of_nat (length l) - 1) = T).
Proof.
  induction l as [|e0 l IH]; intros next roots s T Hnext Hnd Hrange Hw Hsum Hf.
  - cbn [length]. split; [intros; lia | congruence].
  - cbn [merge_forest] in Hf.
    apply andb_prop in Hf as [Hf Hrest].
    apply andb_prop in Hf as [Hf Hne].
    apply andb_prop in Hf as [Ha Hb].
    apply mem_In in Ha, Hb. apply negb_true_iff, Z.eqb_neq in Hne.
    set (a := node1 e0) in *. set (b := node2 e0) in *.
    set (rest := remove Z.eq_dec a (remove Z.eq_dec b roots)) in *.
    set (w := weight N s a + weight N s b).
    set (s1 := s ++ [w]).
    assert (Hs1 : length s1 = S (length s))
      by (unfold s1; rewrite length_app; cbn [length]; lia).
    assert (Hab : In a (remove Z.eq_dec b roots)) by (apply in_in_remove; auto).
    assert (Hndb : NoDup (remove Z.eq_dec b roots)) by auto using NoDup_remove_Z.
    assert (Hrest_in : forall x, In x rest -> In x roots).
    { intros x Hx. apply in_remove in Hx as [Hx _].
      apply in_remove in Hx as [Hx _]. exact Hx. }
    assert (Hsplit : T = weight N s b + (weight N s a
                         + list_sum_over (weight N s) rest)).
    { rewrite <- Hsum. rewrite (sum_remove _ b roots) by assumption.
      rewrite (sum_remove _ a (remove Z.eq_dec b roots)) by assumption.
      reflexivity. }
    assert (Hrest_pos : 0 <= list_sum_over (weight N s) rest)
      by (apply list_sum_over_nonneg; auto).
    pose proof (Hw a Ha) as Hwa. pose proof (Hw b Hb) as Hwb.
    pose proof (Hrange a Ha) as Hra.
    assert (Hnew : weight N s1 next = w).
    { unfold weight. destruct (Z.ltb_spec next N); [lia|].
      replace (next - N) with (Z.of_nat (length s)) by lia.
      apply load_app_last. }
    assert (Hold : forall x, In x rest -> weight N s1 x = weight N s x).
    { intros x Hx. apply weight_app. apply Hrest_in, Hrange in Hx. lia. }
    assert (Hlen_rest : S (S (length rest)) = length roots).
    { unfold rest. rewrite length_remove_Z by assumption.
      apply length_remove_Z; assumption. }
    destruct (IH (next + 1) (next :: rest) s1 T) as [Hbound Hlast]; try assumption.
    + lia.
    + constructor; [|unfold rest; auto using NoDup_remove_Z].
      intros Hin. apply Hrest_in, Hrange in Hin. lia.
    + intros x [<-|Hx]; [lia|]. apply Hrest_in, Hrange in Hx. lia.
    + intros x [<-|Hx]; [rewrite Hnew; unfold w; lia|].
      rewrite Hold by assumption. auto.
    + cbn [list_sum_over fold_right]. fold (list_sum_over (weight N s1) rest).
      rewrite Hnew, (list_sum_over_ext _ _ _ Hold). unfold w. lia.
    + cbn [subtree_sizes]. fold a b w s1. cbv zeta. split.
      * intros p Hp. destruct (Z.eq_dec p (Z.of_nat (length s))) as [->|Hp'].
        -- rewrite load_subtree_sizes by lia. unfold s1.
           rewrite load_app_last. unfold w. lia.
        -- apply Hbound. cbn [length] in Hp. lia.
      * intros Hroots _. destruct l as [|e1 l].
        -- cbn [subtree_sizes length].
           replace (Z.of_nat (length s) + Z.of_nat 1 - 1)
             with (Z.of_nat (length s)) by lia.
           unfold s1. rewrite load_app_last.
           cbn [length] in Hroots.
           destruct rest; [|cbn [length] in Hlen_rest; lia].
           cbn in Hsplit. unfold w. lia.
        -- replace (Z.of_nat (length s) + Z.of_nat (length (e0 :: e1 :: l)) - 1)
             with (Z.of_nat (length s1) + Z.of_nat (length (e1 :: l)) - 1)
             by (cbn [length]; lia).
           apply Hlast; [|discriminate].
           cbn [length] in *. lia.
Qed.

(** Under the contract the last internal node has all [N] leaves below it,
    and no internal node has more. *)
Lemma valid_merges_sizes N l :
  2 <= N -> valid_merges N l = true ->
  let sz := subtree_sizes N [] l in
  (forall p, 0 <= p < N - 1 -> 1 <= load 0 sz p <= N)
  /\ load 0 sz (N - 2) = N.
Proof.
  intros HN H. unfold valid_merges in H. apply andb_prop in H as [Hlen Hf].
  apply Z.eqb_eq in Hlen.
  assert (Hsum : list_sum_over (weight N []) (leaves N) = N).
  { unfold leaves.
    assert (G : forall n k, (Z.of_nat (k + n) <= N)%Z ->
              list_sum_over (weight N []) (map Z.of_nat (seq k n)) = Z.of_nat n).
    { induction n as [|n IHn]; intros k Hk; [reflexivity|].
      cbn [seq map list_sum_over fold_right].
      fold (list_sum_over (weight N []) (map Z.of_nat (seq (S k) n))).
      rewrite IHn by lia. unfold weight.
      destruct (Z.ltb_spec (Z.of_nat k) N); lia. }
    rewrite G by lia. lia. }
  destruct (merge_forest_sizes N l N (leaves N) [] N) as [Hb Hl];
    auto using NoDup_leaves.
  - cbn [length]. lia.
  - intros x Hx. apply In_leaves in Hx. lia.
  - intros x Hx. apply In_leaves in Hx. unfold weight.
    destruct (Z.ltb_spec x N); lia.
  - cbv zeta. split.
    + intros p Hp. apply Hb. cbn [length]. lia.
    + replace (N - 2) with (Z.of_nat (@length Z []) + Z.of_nat (length l) - 1)
        by (cbn [length]; lia).
      apply Hl.
      * rewrite length_leaves. lia.
      * destruct l; [cbn [length] in Hlen; lia | discriminate].
Qed.

End Contract.

(* ================================================================== *)
(** * The dendrogram encoder *)

Module Encoder.
Import Contract.

(** ** One row *)

Lemma load_store_eq {A} (d : A) m i j x :
  i = j -> 0 <= i < Z.of_nat (length m) -> load d (store m i x) j = x.
Proof. intros <-. apply load_store_same. Qed.

Lemma append_cursor o n1 n2 d s : cursor (append o n1 n2 d s) = cursor o + 4.
Proof. unfold append. destruct (n1 <? n2); cbn [put cursor]; lia. Qed.

Lemma append_length o n1 n2 d s :
  length (buffer (append o n1 n2 d s)) = length (buffer o).
Proof.
  unfold append. destruct (n1 <? n2); cbn [put buffer cursor];
    rewrite !length_store; reflexivity.
Qed.

Lemma append_other o n1 n2 d s p :
  ~ (cursor o <= p < cursor o + 4) ->
  load 0%float (buffer (append o n1 n2 d s)) p = load 0%float (buffer o) p.
Proof.
  intros Hp. unfold append. destruct (n1 <? n2); cbn [put buffer cursor];
    rewrite !load_store_other by lia; reflexivity.
Qed.

Lemma append_row o n1 n2 d s :
  0 <= cursor o -> cursor o + 4 <= Z.of_nat (length (buffer o)) ->
  let b := buffer (append o n1 n2 d s) in
  load 0%float b (cursor o) = index_to_float (Z.min n1 n2)
  /\ load 0%float b (cursor o + 1) = index_to_float (Z.max n1 n2)
  /\ load 0%float b (cursor o + 2) = d
  /\ load 0%float b (cursor o + 3) = s.
Proof.
  intros H0 Hfit b. subst b. unfold append.
  destruct (Z.ltb_spec n1 n2); cbn [put buffer cursor];
    [rewrite Z.min_l, Z.max_r by lia | rewrite Z.min_r, Z.max_l by lia].
  all: repeat split.
  all: repeat rewrite load_store_other by lia.
  all: apply load_store_eq; rewrite ?length_store; lia.
Qed.


(** ** The loop with [sorted = true] *)

Section Rows.
Variable N : Z.

Local Abbreviation emit := (emit_entry N).

Lemma encode_true_fold l : forall u o,
  fold_left (encode_entry true N) l (u, o) = (u, fold_left emit l o).
Proof.
  induction l as [|e l IH]; intros u o; [reflexivity|].
  cbn [fold_left]. unfold encode_entry at 2. apply IH.
Qed.

(** The loop advances the cursor by four cells per entry, keeps the length
    of the block and touches no cell outside the rows it writes. *)
Lemma emit_fold_frame l : forall o,
  let o' := fold_left emit l o in
  cursor o' = cursor o + 4 * Z.of_nat (length l)
  /\ length (buffer o') = length (buffer o)
  /\ (forall p, ~ (cursor o <= p < cursor o + 4 * Z.of_nat (length l)) ->
        load 0%float (buffer o') p = load 0%float (buffer o) p).
Proof.
  induction l as [|e l IH]; intros o.
  - cbn [fold_left length]. repeat split. lia.
  - cbn [fold_left]. destruct (IH (emit o e)) as (Hc & Hl & Hf).
    unfold emit_entry, emit_row in *. rewrite append_cursor, append_length in *.
    repeat split.
    + rewrite Hc. cbn [length]. lia.
    + exact Hl.
    + intros p Hp. cbn [length] in Hp. rewrite Hf by lia.
      apply append_other. lia.
Qed.

(** Row [r] of the result: the two indices of the entry, smaller first, its
    distance, and the sum of the two side sizes read from the matrix as it
    stood when the row was written. *)
Lemma emit_fold_row l : forall o r e,
  0 <= cursor o ->
  cursor o + 4 * Z.of_nat (length l) <= Z.of_nat (length (buffer o)) ->
  nth_error l r = Some e ->
  let b := buffer (fold_left emit l o) in
  let before := buffer (fold_left emit (firstn r l) o) in
  let c := cursor o + 4 * Z.of_nat r in
  load 0%float b c = index_to_float (Z.min (node1 e) (node2 e))
  /\ load 0%float b (c + 1) = index_to_float (Z.max (node1 e) (node2 e))
  /\ load 0%float b (c + 2) = dist e
  /\ load 0%float b (c + 3)
     = (side_size before N (node1 e) + side_size before N (node2 e))%float.
Proof.
  induction l as [|e0 l IH]; intros o r e H0 Hfit Hnth.
  - destruct r; discriminate.
  - cbn [length] in Hfit. destruct r as [|r].
    + injection Hnth as <-. cbn [fold_left firstn].
      destruct (emit_fold_frame l (emit o e0)) as (_ & _ & Hf).
      unfold emit_entry, emit_row in Hf. rewrite append_cursor in Hf.
      replace (cursor o + 4 * Z.of_nat 0) with (cursor o) by lia.
      cbv zeta. rewrite !Hf by lia.
      unfold emit_entry, emit_row. apply append_row; lia.
    + cbn [nth_error] in Hnth. cbn [fold_left firstn].
      assert (Hc : cursor (emit o e0) = cursor o + 4)
        by (unfold emit_entry, emit_row; apply append_cursor).
      assert (Hl : length (buffer (emit o e0)) = length (buffer o))
        by (unfold emit_entry, emit_row; apply append_length).
      specialize (IH (emit o e0) r e).
      rewrite Hc, Hl in IH.
      replace (cursor o + 4 * Z.of_nat (S r)) with (cursor o + 4 + 4 * Z.of_nat r) by lia.
      apply IH; [lia | lia | assumption].
Qed.


(** ** The finished matrix *)

Variable l : list node.
Variable Z0 : list float.
Hypothesis fits : 4 * Z.of_nat (length l) <= Z.of_nat (length Z0).

Let out : list float := buffer (fold_left emit l (LinkageOutput_new Z0)).

Lemma encoded_length : length out = length Z0.
Proof. apply (emit_fold_frame l (LinkageOutput_new Z0)). Qed.

Lemma encoded_rest p :
  4 * Z.of_nat (length l) <= p -> load 0%float out p = load 0%float Z0 p.
Proof.
  intros Hp. apply (emit_fold_frame l (LinkageOutput_new Z0)).
  cbn [LinkageOutput_new cursor]. lia.
Qed.

(** The first three cells of row [r] depend on entry [r] alone. *)
Lemma encoded_ids r e :
  nth_error l r = Some e ->
  load 0%float out (4 * Z.of_nat r) = index_to_float (Z.min (node1 e) (node2 e))
  /\ load 0%float out (4 * Z.of_nat r + 1)
     = index_to_float (Z.max (node1 e) (node2 e))
  /\ load 0%float out (4 * Z.of_nat r + 2) = dist e.
Proof.
  intros Hnth.
  destruct (emit_fold_row l (LinkageOutput_new Z0) r e) as (H0 & H1 & H2 & _);
    cbn [LinkageOutput_new cursor buffer]; try lia; try assumption.
  cbn [LinkageOutput_new cursor buffer] in *.
  replace (0 + 4 * Z.of_nat r) with (4 * Z.of_nat r) in * by lia. auto.
Qed.

Hypothesis refs : forall r e, nth_error l r = Some e ->
  node1 e < N + Z.of_nat r /\ node2 e < N + Z.of_nat r.

(** A row that refers only to earlier rows reads sizes that are final. *)
Lemma side_size_final r n :
  (r <= length l)%nat -> n < N + Z.of_nat r ->
  side_size (buffer (fold_left emit (firstn r l) (LinkageOutput_new Z0))) N n
  = side_size out N n.
Proof.
  intros Hr Hn. unfold side_size, Z_. destruct (Z.ltb_spec n N); [reflexivity|].
  unfold out. rewrite <- (firstn_skipn r l) at 2. rewrite fold_left_app.
  set (o_r := fold_left emit (firstn r l) (LinkageOutput_new Z0)).
  destruct (emit_fold_frame (firstn r l) (LinkageOutput_new Z0)) as (Hc & _ & _).
  fold o_r in Hc. cbn [LinkageOutput_new cursor] in Hc.
  rewrite length_firstn, Nat.min_l in Hc by assumption.
  symmetry. apply (emit_fold_frame (skipn r l) o_r). lia.
Qed.

(** On the matrix: the size cell of row [r] is the sum of the sizes of the
    two sides, 1 for a leaf and the size cell of its row for an internal
    node. *)
Lemma encoded_size r e :
  nth_error l r = Some e ->
  load 0%float out (4 * Z.of_nat r + 3)
  = (side_size out N (node1 e) + side_size out N (node2 e))%float.
Proof.
  intros Hnth.
  assert (Hr : (r < length l)%nat) by (apply nth_error_Some; congruence).
  destruct (emit_fold_row l (LinkageOutput_new Z0) r e) as (_ & _ & _ & H3);
    cbn [LinkageOutput_new cursor buffer]; try lia; try assumption.
  cbn [LinkageOutput_new cursor buffer] in H3.
  replace (0 + 4 * Z.of_nat r + 3) with (4 * Z.of_nat r + 3) in H3 by lia.
  fold out in H3. rewrite H3.
  destruct (refs r e Hnth) as [Ha Hb].
  rewrite !side_size_final by lia. reflexivity.
Qed.

(** The size cells hold the leaf counts, as long as these are exact in
    binary64. *)
Lemma encoded_leaf_counts :
  let sz := subtree_sizes N [] l in
  (forall p, 0 <= p < Z.of_nat (length l) -> 1 <= load 0 sz p < 2 ^ 53) ->
  forall r, (r < length l)%nat ->
    load 0%float out (4 * Z.of_nat r + 3) = index_to_float (load 0 sz (Z.of_nat r)).
Proof.
  intros sz Hsz r. induction r as [r IH] using lt_wf_ind. intros Hr.
  destruct (nth_error l r) as [e|] eqn:Hnth;
    [|apply nth_error_None in Hnth; lia].
  assert (Hside : forall n, n < N + Z.of_nat r ->
            side_size out N n = index_to_float (weight N sz n)
            /\ 1 <= weight N sz n).
  { intros n Hn. unfold side_size, weight, Z_.
    destruct (Z.ltb_spec n N); [split; [reflexivity | lia]|].
    replace ((n - N) * 4 + 3) with (4 * Z.of_nat (Z.to_nat (n - N)) + 3) by lia.
    rewrite IH by lia. rewrite Z2Nat.id by lia.
    split; [reflexivity | apply Hsz; lia]. }
  destruct (refs r e Hnth) as [Ha Hb].
  destruct (Hside _ Ha) as [Ea Pa]. destruct (Hside _ Hb) as [Eb Pb].
  rewrite (encoded_size r e Hnth), Ea, Eb.
  assert (Hrow : load 0 sz (Z.of_nat r) = weight N sz (node1 e) + weight N sz (node2 e)).
  { apply (subtree_sizes_row N l [] r e); [|assumption].
    intros r' e' H'. cbn [length]. apply refs in H'. lia. }
  pose proof (Hsz (Z.of_nat r) ltac:(lia)) as Hbound.
  rewrite index_to_float_add by lia. rewrite Hrow. reflexivity.
Qed.

End Rows.

(** ** std::stable_sort *)

Lemma insert_node_perm x l : Permutation (insert_node x l) (x :: l).
Proof.
  induction l as [|y t IH]; simpl; [reflexivity|].
  destruct (node_lt y x); [|reflexivity].
  rewrite IH. apply perm_swap.
Qed.

Lemma stable_sort_perm l : Permutation (stable_sort l) l.
Proof.
  induction l as [|x t IH]; simpl; [reflexivity|].
  rewrite insert_node_perm. constructor. exact IH.
Qed.

Lemma stable_sort_length l : length (stable_sort l) = length l.
Proof. apply Permutation_length, stable_sort_perm. Qed.

Lemma insert_node_sorted x l :
  sorted_by_distance l = true -> sorted_by_distance (insert_node x l) = true.
Proof.
  induction l as [|y t IH]; intros H; [reflexivity|].
  cbn [insert_node]. destruct (node_lt y x) eqn:Hyx.
  - assert (Ht : sorted_by_distance t = true).
    { destruct t; [reflexivity|]. cbn in H. apply andb_prop in H. tauto. }
    specialize (IH Ht).
    destruct t as [|z t']; cbn [insert_node] in *.
    + cbn. unfold node_lt in *. rewrite (float_ltb_asym _ _ Hyx). reflexivity.
    + destruct (node_lt z x) eqn:Hzx.
      * cbn [sorted_by_distance] in *. apply andb_prop in H as [H1 _].
        rewrite H1. exact IH.
      * change (negb (node_lt x y) && sorted_by_distance (x :: z :: t') = true).
        unfold node_lt in *. rewrite (float_ltb_asym _ _ Hyx). exact IH.
  - change (negb (node_lt y x) && sorted_by_distance (y :: t) = true).
    rewrite Hyx. exact H.
Qed.

Lemma stable_sort_sorted l : sorted_by_distance (stable_sort l) = true.
Proof.
  induction l as [|x t IH]; [reflexivity|]. apply insert_node_sorted, IH.
Qed.

(** An insertion never moves an event past one with an equal key: the
    events of any one distance keep their order. *)
Lemma insert_node_stable (d : float) x l :
  filter (fun e => (dist e =? d)%float) (insert_node x l)
  = filter (fun e => (dist e =? d)%float) (x :: l).
Proof.
  induction l as [|y t IH]; [reflexivity|].
  cbn [insert_node]. destruct (node_lt y x) eqn:Hyx; [|reflexivity].
  cbn [filter] in *. rewrite IH.
  destruct (dist y =? d)%float eqn:Ey, (dist x =? d)%float eqn:Ex; try reflexivity.
  unfold node_lt in Hyx. rewrite (float_eqb_not_ltb _ _ _ Ex Ey) in Hyx.
  discriminate.
Qed.

Lemma stable_sort_stable (d : float) l :
  filter (fun e => (dist e =? d)%float) (stable_sort l)
  = filter (fun e => (dist e =? d)%float) l.
Proof.
  induction l as [|x t IH]; [reflexivity|].
  cbn [stable_sort]. rewrite insert_node_stable. cbn [filter]. rewrite IH.
  reflexivity.
Qed.

(** A sequence already in non-decreasing order is left as it is. *)
Lemma stable_sort_sorted_id l :
  sorted_by_distance l = true -> stable_sort l = l.
Proof.
  induction l as [|x t IH]; intros H; [reflexivity|].
  cbn [stable_sort]. destruct t as [|y t'].
  - reflexivity.
  - cbn [sorted_by_distance] in H. apply andb_prop in H as [Hxy Ht].
    rewrite IH by exact Ht. cbn [insert_node].
    apply negb_true_iff in Hxy. rewrite Hxy. reflexivity.
Qed.

(** ** The loop with [sorted = false] *)

Lemma encode_false_fold N l : forall u o,
  snd (fold_left (encode_entry false N) l (u, o))
  = fold_left (emit_entry N) (relabel_events u l) o.
Proof.
  induction l as [|e l IH]; intros u o; [reflexivity|].
  cbn [fold_left relabel_events]. unfold encode_entry at 2.
  rewrite IH. reflexivity.
Qed.

Lemma relabel_events_length l : forall u,
  length (relabel_events u l) = length l.
Proof.
  induction l as [|e l IH]; intros u; cbn [relabel_events length]; auto.
Qed.

Lemma generateSciPyDendrogram_true Z0 Z2 N :
  generateSciPyDendrogram true Z0 Z2 N
  = buffer (fold_left (emit_entry N) (firstn (Z.to_nat (N - 1)) Z2)
              (LinkageOutput_new Z0)).
Proof.
  unfold generateSciPyDendrogram. rewrite encode_true_fold. reflexivity.
Qed.

(** The encoder with [sorted = false] is the encoder with [sorted = true]
    run on the sorted and relabelled events. *)
Lemma generateSciPyDendrogram_false Z0 Z2 N :
  generateSciPyDendrogram false Z0 Z2 N
  = generateSciPyDendrogram true Z0
      (relabel_events (union_find_new N)
         (stable_sort (firstn (Z.to_nat (N - 1)) Z2))) N.
Proof.
  rewrite generateSciPyDendrogram_true.
  unfold generateSciPyDendrogram. rewrite encode_false_fold.
  rewrite (firstn_all2 (n := Z.to_nat (N - 1)) (relabel_events _ _));
    [reflexivity|].
  rewrite relabel_events_length, stable_sort_length, length_firstn. lia.
Qed.

(** On events that satisfy the engine's contract every index is its own
    representative. *)
Lemma load_repeat_0 n x : load 0 (repeat 0 n) x = 0.
Proof.
  unfold load. destruct (x <? 0); [reflexivity|].
  destruct (Nat.lt_ge_cases (Z.to_nat x) n).
  - apply nth_repeat_lt; assumption.
  - apply nth_overflow. rewrite repeat_length. assumption.
Qed.

Lemma Find_root u x : load 0 (parent u) x = 0 -> Find u x = x.
Proof.
  intros H. unfold Find. destruct (length (parent u)); cbn [Find_from];
    [reflexivity|]. rewrite H. reflexivity.
Qed.

Lemma relabel_events_canonical l : forall u next roots,
  (forall x, In x roots -> 0 <= x < next) ->
  nextparent u = next ->
  (forall x, In x roots \/ next <= x -> load 0 (parent u) x = 0) ->
  merge_forest next roots l = true ->
  relabel_events u l = l.
Proof.
  induction l as [|e l IH]; intros u next roots Hrange Hnext Hroot Hf;
    [reflexivity|].
  cbn [merge_forest] in Hf.
  apply andb_prop in Hf as [Hf Hrest].
  apply andb_prop in Hf as [Hf _].
  apply andb_prop in Hf as [Ha Hb].
  apply mem_In in Ha, Hb.
  cbn [relabel_events].
  rewrite !Find_root by auto.
  pose proof (Hrange _ Ha). pose proof (Hrange _ Hb).
  rewrite (IH _ (next + 1)
             (next :: remove Z.eq_dec (node1 e) (remove Z.eq_dec (node2 e) roots))).
  - destruct e; reflexivity.
  - intros x [<-|Hin]; [lia|].
    apply in_remove in Hin as [Hin _].
    apply in_remove in Hin as [Hin _]. apply Hrange in Hin. lia.
  - cbn [Union nextparent]. lia.
  - intros x Hx. cbn [Union parent].
    assert (x <> node1 e /\ x <> node2 e) as [N1 N2].
    { destruct Hx as [[<-|Hin]|Hx]; try lia.
      apply in_remove in Hin as [Hin N1].
      apply in_remove in Hin as [Hin N2]. auto. }
    rewrite !load_store_other by congruence.
    apply Hroot. destruct Hx as [[<-|Hin]|Hx].
    + right. lia.
    + left. apply in_remove in Hin as [Hin _].
      apply in_remove in Hin as [Hin _]. exact Hin.
    + right. lia.
  - exact Hrest.
Qed.

(** ** Blocks compared cell by cell *)

Lemma firstn_load_ext {A} (d : A) n (a b : list A) :
  (n <= length a)%nat -> (n <= length b)%nat ->
  (forall p, 0 <= p < Z.of_nat n -> load d a p = load d b p) ->
  firstn n a = firstn n b.
Proof.
  intros Ha Hb H. apply (nth_ext _ _ d d).
  - rewrite !length_firstn. lia.
  - intros i Hi. rewrite length_firstn in Hi. rewrite !nth_firstn.
    destruct (Nat.ltb_spec i n); [|reflexivity].
    specialize (H (Z.of_nat i) ltac:(lia)). unfold load in H.
    destruct (Z.ltb_spec (Z.of_nat i) 0); [lia|].
    rewrite Nat2Z.id in H. exact H.
Qed.

Lemma skipn_load_ext {A} (d : A) n (a b : list A) :
  length a = length b ->
  (forall p, Z.of_nat n <= p -> load d a p = load d b p) ->
  skipn n a = skipn n b.
Proof.
  intros Hl H. apply (nth_ext _ _ d d).
  - rewrite !length_skipn. lia.
  - intros i Hi. rewrite !nth_skipn.
    specialize (H (Z.of_nat (n + i)) ltac:(lia)). unfold load in H.
    destruct (Z.ltb_spec (Z.of_nat (n + i)) 0); [lia|].
    rewrite Nat2Z.id in H. exact H.
Qed.

(** Two runs of the loop on the same entries, over blocks with different
    contents, write the same rows. *)
Lemma encoded_independent N l (Z1 Z2 : list float) :
  4 * Z.of_nat (length l) <= Z.of_nat (length Z1) ->
  4 * Z.of_nat (length l) <= Z.of_nat (length Z2) ->
  (forall r e, nth_error l r = Some e ->
     node1 e < N + Z.of_nat r /\ node2 e < N + Z.of_nat r) ->
  forall p, 0 <= p < 4 * Z.of_nat (length l) ->
    load 0%float (buffer (fold_left (emit_entry N) l (LinkageOutput_new Z1))) p
    = load 0%float (buffer (fold_left (emit_entry N) l (LinkageOutput_new Z2))) p.
Proof.
  intros H1 H2 Hrefs.
  set (o1 := buffer (fold_left (emit_entry N) l (LinkageOutput_new Z1))).
  set (o2 := buffer (fold_left (emit_entry N) l (LinkageOutput_new Z2))).
  assert (Hsize : forall r, (r < length l)%nat ->
            load 0%float o1 (4 * Z.of_nat r + 3) = load 0%float o2 (4 * Z.of_nat r + 3)).
  { intros r. induction r as [r IH] using lt_wf_ind. intros Hr.
    destruct (nth_error l r) as [e|] eqn:Hnth;
      [|apply nth_error_None in Hnth; lia].
    unfold o1, o2.
    rewrite (encoded_size N l Z1 H1 Hrefs r e Hnth).
    rewrite (encoded_size N l Z2 H2 Hrefs r e Hnth).
    fold o1 o2.
    assert (Hside : forall n, n < N + Z.of_nat r ->
              side_size o1 N n = side_size o2 N n).
    { intros n Hn. unfold side_size, Z_.
      destruct (Z.ltb_spec n N); [reflexivity|].
      replace ((n - N) * 4 + 3) with (4 * Z.of_nat (Z.to_nat (n - N)) + 3) by lia.
      apply IH; lia. }
    destruct (Hrefs r e Hnth) as [Ha Hb].
    rewrite !Hside by assumption. reflexivity. }
  intros p Hp.
  set (r := Z.to_nat (p / 4)).
  assert (Hr : (r < length l)%nat) by (unfold r; apply Nat2Z.inj_lt; rewrite Z2Nat.id; [apply Z.div_lt_upper_bound|apply Z.div_pos]; lia).
  destruct (nth_error l r) as [e|] eqn:Hnth;
    [|apply nth_error_None in Hnth; lia].
  destruct (encoded_ids N l Z1 H1 r e Hnth) as (A0 & A1 & A2).
  destruct (encoded_ids N l Z2 H2 r e Hnth) as (B0 & B1 & B2).
  fold o1 in A0, A1, A2. fold o2 in B0, B1, B2.
  specialize (Hsize r Hr).
  assert (Hq : p = 4 * Z.of_nat r + p mod 4)
    by (unfold r; rewrite Z2Nat.id by (apply Z.div_pos; lia);
        apply Z.div_mod; lia).
  pose proof (Z.mod_pos_bound p 4 ltac:(lia)) as Hm.
  assert (Hcase : p mod 4 = 0 \/ p mod 4 = 1 \/ p mod 4 = 2 \/ p mod 4 = 3) by lia.
  rewrite Hq.
  destruct Hcase as [E|[E|[E|E]]]; rewrite E;
    rewrite ?Z.add_0_r; congruence.
Qed.

End Encoder.

(* ================================================================== *)
(** * The whole call: what a successful linkage leaves in the block *)

Module Linkage.
Import Contract Encoder.

Lemma requiredLength_exact N :
  2 <= N < 2 ^ 62 -> requiredLength N = 4 * (N - 1).
Proof.
  intros H. unfold requiredLength, size_t_modulus.
  destruct (Z.ltb_spec 1 N); [|lia]. rewrite Z.mod_small; lia.
Qed.

(** The [try] block either throws, whatever the output block holds, or
    encodes the engine's events with [sorted = true]. *)
Lemma try_block_cases P input N D :
  (exists e, forall out, try_block P input N D out = Throws e)
  \/ (exists events, engine_events P input N D = Some events
        /\ forall out, try_block P input N D out
             = Normal (generateSciPyDendrogram true out (postprocess events) N)).
Proof.
  unfold try_block, engine_events.
  destruct (CentroidDissimilarity_new _ _ _ _) as [st0|e]; cbn [bind];
    [|left; eauto].
  destruct (cluster_result_new _ _) as [[]|e]; cbn [bind]; [|left; eauto].
  destruct (run _ _) as [[events st1]|e]; cbn [bind]; [|left; eauto].
  right. eauto.
Qed.

Lemma catch_status_not_success e : catch_status e <> FASTCLUSTER_WRAPPER_SUCCESS.
Proof. destruct e; discriminate. Qed.

(** A successful call on two points or more went through the [try] block:
    its output is the encoding, with [sorted = true], of the events the
    engine returned, square roots taken. *)
Lemma successful_call P input N D out len out' :
  2 <= N ->
  fastcluster_compute_centroid_linkage P (Some input) N D (Some out) len
    = (FASTCLUSTER_WRAPPER_SUCCESS, Some out') ->
  requiredLength N <= len
  /\ exists events, engine_events P input N D = Some events
       /\ out' = generateSciPyDendrogram true out (postprocess events) N.
Proof.
  intros HN. unfold fastcluster_compute_centroid_linkage.
  destruct (Z.eqb_spec N 0); [lia|].
  destruct (D =? 0); [discriminate|].
  destruct (_ || _); [discriminate|].
  destruct (Z.ltb_spec len (requiredLength N)); [discriminate|].
  destruct (Z.eqb_spec N 1); [lia|].
  destruct (try_block_cases P input N D) as [(e & He)|(events & Hev & Ht)].
  - rewrite He. intros Hcall. injection Hcall as Hs _.
    destruct (catch_status_not_success _ Hs).
  - rewrite Ht. intros Hcall. injection Hcall as <-. eauto.
Qed.


Lemma subtree_sizes_postprocess N l : forall s,
  subtree_sizes N s (postprocess l) = subtree_sizes N s l.
Proof.
  unfold postprocess, cluster_result_sqrt.
  induction l as [|e l IH]; intros s; [reflexivity|].
  cbn [map subtree_sizes node1 node2]. apply IH.
Qed.

Section Success.
Variable P : Platform.
Variables (input out out' : list float) (N D len : Z) (events : cluster_result).

Hypothesis call_succeeds :
  fastcluster_compute_centroid_linkage P (Some input) N D (Some out) len
  = (FASTCLUSTER_WRAPPER_SUCCESS, Some out').
Hypothesis engine_returns : engine_events P input N D = Some events.
Hypothesis contract : valid_merges N events = true.
Hypothesis count_range : 2 <= N < 2 ^ 52.
Hypothesis block_length : len <= Z.of_nat (length out).

Let entries : cluster_result := postprocess events.

Lemma entries_length : Z.of_nat (length entries) = N - 1.
Proof.
  unfold entries, postprocess, cluster_result_sqrt. rewrite length_map.
  apply (valid_merges_refs N events contract).
Qed.

Lemma entries_refs r e :
  nth_error entries r = Some e ->
  0 <= node1 e < N + Z.of_nat r /\ 0 <= node2 e < N + Z.of_nat r
  /\ node1 e <> node2 e.
Proof.
  apply (valid_merges_refs N entries).
  unfold entries. rewrite valid_merges_postprocess. exact contract.
Qed.

Lemma entries_of_events r e :
  nth_error events r = Some e ->
  nth_error entries r
  = Some {| node1 := node1 e; node2 := node2 e; dist := PrimFloat.sqrt (dist e) |}.
Proof.
  intros H. unfold entries, postprocess, cluster_result_sqrt.
  rewrite nth_error_map, H. reflexivity.
Qed.

Lemma success_output :
  out' = buffer (fold_left (emit_entry N) entries (LinkageOutput_new out)).
Proof.
  destruct (successful_call P input N D out len out' ltac:(lia) call_succeeds)
    as (_ & events0 & Hev & ->).
  rewrite engine_returns in Hev. injection Hev as <-.
  rewrite generateSciPyDendrogram_true. fold entries.
  rewrite firstn_all2; [reflexivity|]. pose proof entries_length. lia.
Qed.

Lemma success_fits : 4 * Z.of_nat (length entries) <= Z.of_nat (length out).
Proof.
  destruct (successful_call P input N D out len out' ltac:(lia) call_succeeds)
    as (Hreq & _).
  rewrite requiredLength_exact in Hreq by lia.
  rewrite entries_length. lia.
Qed.

Lemma success_prior_refs r e :
  nth_error entries r = Some e ->
  node1 e < N + Z.of_nat r /\ node2 e < N + Z.of_nat r.
Proof. intros H. apply entries_refs in H. tauto. Qed.

(** C5: in every row of a successful call the first ID is strictly below
    the second, as doubles.  The engine's contract makes the two indices of
    an event different, and indices below [2^53] convert exactly. *)
Theorem first_id_below_second r :
  0 <= r < N - 1 ->
  (load 0%float out' (4 * r) <? load 0%float out' (4 * r + 1))%float = true.
Proof.
  intros Hr. pose proof entries_length as Hlen.
  destruct (nth_error entries (Z.to_nat r)) as [e|] eqn:Hnth;
    [|apply nth_error_None in Hnth; lia].
  destruct (encoded_ids N entries out success_fits _ _ Hnth) as (H0 & H1 & _).
  rewrite <- success_output, Z2Nat.id in H0, H1 by lia.
  rewrite H0, H1.
  destruct (entries_refs _ _ Hnth) as (Ha & Hb & Hne).
  apply index_to_float_lt; lia.
Qed.

(** C4: in a successful call each row's size cell is the sum of the sizes
    of its two sides, 1 for a leaf and the size cell of its row for an
    internal node; every size cell is the leaf count of its node; and the
    size cell of the last row is [N]. *)
Theorem row_sizes_add_up :
  (forall r e, nth_error events r = Some e ->
     load 0%float out' (4 * Z.of_nat r + 3)
     = (side_size out' N (node1 e) + side_size out' N (node2 e))%float)
  /\ (forall r, 0 <= r < N - 1 ->
        load 0%float out' (4 * r + 3)
        = index_to_float (load 0 (subtree_sizes N [] events) r))
  /\ load 0%float out' (4 * (N - 2) + 3) = index_to_float N.
Proof.
  pose proof entries_length as Hlen.
  assert (Hsz : subtree_sizes N [] entries = subtree_sizes N [] events).
  { apply subtree_sizes_postprocess. }
  destruct (valid_merges_sizes N events ltac:(lia) contract) as [Hbound Hlast].
  assert (Hcells : forall r, 0 <= r < N - 1 ->
            load 0%float out' (4 * r + 3)
            = index_to_float (load 0 (subtree_sizes N [] events) r)).
  { intros r Hr. rewrite success_output.
    replace (4 * r + 3) with (4 * Z.of_nat (Z.to_nat r) + 3) by lia.
    rewrite (encoded_leaf_counts N entries out success_fits success_prior_refs).
    - rewrite Hsz, Z2Nat.id by lia. reflexivity.
    - intros p Hp. rewrite Hsz. specialize (Hbound p ltac:(lia)).
      assert (N < 2 ^ 53) by (change (2 ^ 53) with (2 * 2 ^ 52); lia). lia.
    - lia. }
  split; [|split].
  - intros r e Hnth. rewrite success_output.
    apply (encoded_size N entries out success_fits success_prior_refs r
             {| node1 := node1 e; node2 := node2 e;
                dist := PrimFloat.sqrt (dist e) |}).
    apply entries_of_events, Hnth.
  - exact Hcells.
  - rewrite Hcells by lia. rewrite Hlast. reflexivity.
Qed.

End Success.

Lemma first_id_below_second_witness :
  (load 0%float triangle_dendrogram (4 * 1)
   <? load 0%float triangle_dendrogram (4 * 1 + 1))%float = true.
Proof.
  apply (first_id_below_second small_platform triangle (repeat 7%float 8)
           triangle_dendrogram 3 2 8 triangle_events).
  - vm_compute; reflexivity.
  - vm_compute; reflexivity.
  - vm_compute; reflexivity.
  - lia.
  - simpl; lia.
  - lia.
Defined.

Lemma row_sizes_add_up_witness :
  load 0%float triangle_dendrogram (4 * (3 - 2) + 3) = index_to_float 3.
Proof.
  apply (row_sizes_add_up small_platform triangle (repeat 7%float 8)
           triangle_dendrogram 3 2 8 triangle_events).
  - vm_compute; reflexivity.
  - vm_compute; reflexivity.
  - vm_compute; reflexivity.
  - lia.
  - simpl; lia.
Defined.

(** C7: on merge events that are already in non-decreasing order of
    distance and already use the indices the engine's contract asks for,
    the sort and the union-find relabelling change nothing: the events come
    back as they are, the encoder with [sorted = false] writes what the
    encoder with [sorted = true] writes, and each row carries the indices
    and the distance of its event. *)
Theorem sorted_relabel_pass_is_identity (Z0 : list float) (Z2 : cluster_result)
    (N : Z) :
  valid_merges N Z2 = true ->
  sorted_by_distance Z2 = true ->
  stable_sort (firstn (Z.to_nat (N - 1)) Z2) = Z2
  /\ relabel_events (union_find_new N) Z2 = Z2
  /\ generateSciPyDendrogram false Z0 Z2 N = generateSciPyDendrogram true Z0 Z2 N
  /\ (4 * (N - 1) <= Z.of_nat (length Z0) ->
      forall r e, nth_error Z2 r = Some e ->
        let out := generateSciPyDendrogram false Z0 Z2 N in
        load 0%float out (4 * Z.of_nat r)
          = index_to_float (Z.min (node1 e) (node2 e))
        /\ load 0%float out (4 * Z.of_nat r + 1)
          = index_to_float (Z.max (node1 e) (node2 e))
        /\ load 0%float out (4 * Z.of_nat r + 2) = dist e).
Proof.
  intros Hvalid Hsorted.
  destruct (valid_merges_refs N Z2 Hvalid) as [Hlen _].
  assert (Hfirst : firstn (Z.to_nat (N - 1)) Z2 = Z2)
    by (apply firstn_all2; lia).
  assert (Hsort : stable_sort (firstn (Z.to_nat (N - 1)) Z2) = Z2)
    by (rewrite Hfirst; apply stable_sort_sorted_id, Hsorted).
  assert (Hrel : relabel_events (union_find_new N) Z2 = Z2).
  { unfold valid_merges in Hvalid. apply andb_prop in Hvalid as [_ Hf].
    apply (relabel_events_canonical Z2 (union_find_new N) N (leaves N)).
    - intros x Hx. apply In_leaves in Hx. exact Hx.
    - reflexivity.
    - intros x _. apply load_repeat_0.
    - exact Hf. }
  assert (Hgen : generateSciPyDendrogram false Z0 Z2 N
                 = generateSciPyDendrogram true Z0 Z2 N)
    by (rewrite generateSciPyDendrogram_false, Hsort, Hrel; reflexivity).
  split; [exact Hsort|]. split; [exact Hrel|]. split; [exact Hgen|].
  intros Hfit r e Hnth. cbv zeta.
  rewrite Hgen, generateSciPyDendrogram_true, Hfirst.
  apply (encoded_ids N Z2 Z0 ltac:(lia) r e Hnth).
Qed.

Lemma sorted_relabel_pass_is_identity_witness :
  generateSciPyDendrogram false (repeat 7%float 8) canonical_events 3
  = generateSciPyDendrogram true (repeat 7%float 8) canonical_events 3.
Proof.
  apply (sorted_relabel_pass_is_identity (repeat 7%float 8) canonical_events 3).
  - vm_compute; reflexivity.
  - vm_compute; reflexivity.
Defined.

(** C1, as the code has it.  The boundary instantiates the encoder with
    [sorted = true]: a successful call writes row [r] from event [r] of the
    engine, in the engine's order and with the engine's own indices (smaller
    first), the distance being the square root taken by [postprocess];
    nothing is sorted and no union-find is consulted.  The stable sort and
    the union-find relabelling are what the other instantiation,
    [sorted = false], does: it is the same emission run on the events
    stably sorted by distance (a permutation, in non-decreasing order, ties
    in their original order) and then relabelled through the union-find. *)
Theorem encoder_keeps_engine_order P input N D out len out' :
  2 <= N < 2 ^ 52 ->
  len <= Z.of_nat (length out) ->
  fastcluster_compute_centroid_linkage P (Some input) N D (Some out) len
    = (FASTCLUSTER_WRAPPER_SUCCESS, Some out') ->
  (exists events, engine_events P input N D = Some events
     /\ out' = generateSciPyDendrogram true out (postprocess events) N
     /\ forall r e, 0 <= Z.of_nat r < N - 1 -> nth_error events r = Some e ->
          load 0%float out' (4 * Z.of_nat r)
            = index_to_float (Z.min (node1 e) (node2 e))
          /\ load 0%float out' (4 * Z.of_nat r + 1)
            = index_to_float (Z.max (node1 e) (node2 e))
          /\ load 0%float out' (4 * Z.of_nat r + 2) = PrimFloat.sqrt (dist e))
  /\ (forall Z0 Z2,
        let entries := firstn (Z.to_nat (N - 1)) Z2 in
        generateSciPyDendrogram false Z0 Z2 N
        = generateSciPyDendrogram true Z0
            (relabel_events (union_find_new N) (stable_sort entries)) N
        /\ Permutation (stable_sort entries) entries
        /\ sorted_by_distance (stable_sort entries) = true
        /\ forall d, filter (fun e => (dist e =? d)%float) (stable_sort entries)
                     = filter (fun e => (dist e =? d)%float) entries).
Proof.
  intros HN Hlen Hcall. split.
  - destruct (successful_call P input N D out len out' ltac:(lia) Hcall)
      as (Hreq & events & Hev & Hout).
    exists events. split; [exact Hev|]. split; [exact Hout|].
    intros r e Hr Hnth. rewrite Hout, generateSciPyDendrogram_true.
    rewrite requiredLength_exact in Hreq by lia.
    set (entries := firstn (Z.to_nat (N - 1)) (postprocess events)).
    assert (Hfit : 4 * Z.of_nat (length entries) <= Z.of_nat (length out)).
    { unfold entries. rewrite length_firstn. lia. }
    assert (Hentry : nth_error entries r
              = Some {| node1 := node1 e; node2 := node2 e;
                        dist := PrimFloat.sqrt (dist e) |}).
    { unfold entries. rewrite nth_error_firstn.
      destruct (Nat.ltb_spec r (Z.to_nat (N - 1))); [|lia].
      unfold postprocess, cluster_result_sqrt.
      rewrite nth_error_map, Hnth. reflexivity. }
    apply (encoded_ids N entries out Hfit r _ Hentry).
  - intros Z0 Z2 entries. split; [apply generateSciPyDendrogram_false|].
    split; [apply stable_sort_perm|]. split; [apply stable_sort_sorted|].
    intros d. apply stable_sort_stable.
Qed.

Lemma encoder_keeps_engine_order_witness :
  exists events, engine_events small_platform triangle 3 2 = Some events
    /\ triangle_dendrogram
       = generateSciPyDendrogram true (repeat 7%float 8) (postprocess events) 3.
Proof.
  destruct (encoder_keeps_engine_order small_platform triangle 3 2
              (repeat 7%float 8) 8 triangle_dendrogram)
    as [(events & Hev & Hout & _) _].
  - lia.
  - simpl; lia.
  - vm_compute; reflexivity.
  - exists events. split; assumption.
Defined.

(** C1 as stated fails.  For the triangle the engine merges the points 0
    and 1 at distance 1 and then joins point 2 at distance 0.875; the call
    succeeds and leaves the rows in that order, the larger distance first.
    The sorting instantiation would have put the second event first. *)
Lemma encoder_output_not_sorted :
  fastcluster_compute_centroid_linkage small_platform (Some triangle) 3 2
    (Some (repeat 7%float 8)) 8
  = (FASTCLUSTER_WRAPPER_SUCCESS, Some triangle_dendrogram)
  /\ engine_events small_platform triangle 3 2 = Some triangle_events
  /\ (load 0%float triangle_dendrogram (4 * 1 + 2)
      <? load 0%float triangle_dendrogram (4 * 0 + 2))%float = true
  /\ sorted_by_distance (postprocess triangle_events) = false
  /\ generateSciPyDendrogram true (repeat 7%float 8)
       (postprocess triangle_events) 3
     <> generateSciPyDendrogram false (repeat 7%float 8)
          (postprocess triangle_events) 3.
Proof.
  repeat split; try (vm_compute; reflexivity).
  vm_compute. discriminate.
Qed.

(** C8: two calls with the same matrix, [pointCount], [dimension] and
    buffer length, on output blocks of the same size whose contents may
    differ, under the same platform (same allocator answers, same engine),
    return the same status and leave the same values in the cells they
    write; the cells they do not write keep what each block held.  The
    engine's events are assumed to satisfy its contract, so that every size
    read back from the block was written by the same call. *)
Theorem output_determined_by_input P input N D out1 out2 len :
  0 <= N < 2 ^ 62 ->
  length out1 = length out2 ->
  len <= Z.of_nat (length out1) ->
  (forall events, engine_events P input N D = Some events ->
     valid_merges N events = true) ->
  let r1 := fastcluster_compute_centroid_linkage P (Some input) N D (Some out1) len in
  let r2 := fastcluster_compute_centroid_linkage P (Some input) N D (Some out2) len in
  fst r1 = fst r2
  /\ exists o1 o2, snd r1 = Some o1 /\ snd r2 = Some o2
       /\ firstn (written_cells (fst r1) N) o1 = firstn (written_cells (fst r1) N) o2
       /\ skipn (written_cells (fst r1) N) o1 = skipn (written_cells (fst r1) N) out1
       /\ skipn (written_cells (fst r1) N) o2 = skipn (written_cells (fst r1) N) out2.
Proof.
  intros HN Hlen12 Hlen Hcontract r1 r2. subst r1 r2.
  unfold fastcluster_compute_centroid_linkage.
  assert (Hsame : forall s,
            s <> FASTCLUSTER_WRAPPER_SUCCESS ->
            fst (s, Some out1) = fst (s, Some out2)
            /\ exists o1 o2, snd (s, Some out1) = Some o1 /\ snd (s, Some out2) = Some o2
                 /\ firstn (written_cells (fst (s, Some out1)) N) o1
                    = firstn (written_cells (fst (s, Some out1)) N) o2
                 /\ skipn (written_cells (fst (s, Some out1)) N) o1
                    = skipn (written_cells (fst (s, Some out1)) N) out1
                 /\ skipn (written_cells (fst (s, Some out1)) N) o2
                    = skipn (written_cells (fst (s, Some out1)) N) out2).
  { intros s Hs. split; [reflexivity|]. exists out1, out2. cbn [fst snd].
    destruct s; try congruence; cbn [written_cells firstn]; auto. }
  assert (Hnone : forall n, (n = 0)%nat ->
            firstn n out1 = firstn n out2
            /\ skipn n out1 = skipn n out1 /\ skipn n out2 = skipn n out2)
    by (intros n ->; auto).
  destruct (Z.eqb_spec N 0) as [->|HN0].
  { split; [reflexivity|]. exists out1, out2. cbn [fst snd written_cells].
    repeat split. }
  destruct (D =? 0); [apply Hsame; discriminate|].
  destruct (_ || _); [apply Hsame; discriminate|].
  destruct (Z.ltb_spec len (requiredLength N)) as [|Hreq];
    [apply Hsame; discriminate|].
  destruct (Z.eqb_spec N 1) as [->|HN1].
  { split; [reflexivity|]. exists out1, out2. cbn [fst snd written_cells].
    repeat split. }
  destruct (try_block_cases P input N D) as [(e & He)|(events & Hev & Ht)].
  - rewrite !He. apply Hsame, catch_status_not_success.
  - rewrite !Ht. cbn [fst snd written_cells].
    split; [reflexivity|]. do 2 eexists. split; [reflexivity|].
    split; [reflexivity|].
    specialize (Hcontract events Hev).
    rewrite <- valid_merges_postprocess in Hcontract.
    destruct (valid_merges_refs N _ Hcontract) as [Hcount Hrefs].
    rewrite requiredLength_exact in Hreq by lia.
    rewrite !generateSciPyDendrogram_true.
    rewrite !(firstn_all2 (n := Z.to_nat (N - 1)) (postprocess events)) by lia.
    set (entries := postprocess events) in *.
    assert (Hfit1 : 4 * Z.of_nat (length entries) <= Z.of_nat (length out1)) by lia.
    assert (Hfit2 : 4 * Z.of_nat (length entries) <= Z.of_nat (length out2)) by lia.
    assert (Hprior : forall r e, nth_error entries r = Some e ->
              node1 e < N + Z.of_nat r /\ node2 e < N + Z.of_nat r).
    { intros r e Hnth. apply Hrefs in Hnth. tauto. }
    pose proof (encoded_length N entries out1) as L1.
    pose proof (encoded_length N entries out2) as L2.
    replace (Z.to_nat (4 * (N - 1))) with (4 * length entries)%nat by lia.
    split; [|split].
    + apply (firstn_load_ext 0%float); try lia.
      intros p Hp. apply encoded_independent; try assumption. lia.
    + apply (skipn_load_ext 0%float); [assumption|].
      intros p Hp. apply encoded_rest. lia.
    + apply (skipn_load_ext 0%float); [assumption|].
      intros p Hp. apply encoded_rest. lia.
Qed.

Lemma output_determined_by_input_witness :
  let r1 := fastcluster_compute_centroid_linkage small_platform (Some triangle)
              3 2 (Some (repeat 7%float 8)) 8 in
  let r2 := fastcluster_compute_centroid_linkage small_platform (Some triangle)
              3 2 (Some (repeat 9%float 8)) 8 in
  fst r1 = fst r2.
Proof.
  intros r1 r2.
  apply (output_determined_by_input small_platform triangle 3 2
           (repeat 7%float 8) (repeat 9%float 8) 8).
  - lia.
  - reflexivity.
  - simpl; lia.
  - intros events H. vm_compute in H. injection H as <-. vm_compute; reflexivity.
Defined.

End Linkage.

(* ================================================================== *)
(** * Signs of rounded results *)

Module FloatSigns.

(** ** Rounding keeps the sign and never yields NaN *)

Lemma shr_1_nonneg mrs : 0 <= shr_m mrs -> 0 <= shr_m (shr_1 mrs).
Proof.
  destruct mrs as [m r s]. cbn [shr_m].
  destruct m as [|[p|p|]|[p|p|]]; cbn; lia.
Qed.

Lemma iter_pos_invariant {A} (f : A -> A) (Q : A -> Prop) :
  (forall x, Q x -> Q (f x)) -> forall n x, Q x -> Q (iter_pos f n x).
Proof.
  intros Hf. induction n as [n IH|n IH|]; intros x Hx; cbn [iter_pos]; auto.
Qed.

Lemma shr_fexp_nonneg m e l :
  0 <= m -> 0 <= shr_m (fst (shr_fexp prec emax m e l)).
Proof.
  intros Hm. unfold shr_fexp, shr.
  assert (H0 : 0 <= shr_m (shr_record_of_loc m l))
    by (destruct l as [|[ | | ]]; exact Hm).
  destruct (fexp prec emax (Zdigits2 m + e) - e); cbn [fst]; try exact H0.
  apply (iter_pos_invariant shr_1 (fun r => 0 <= shr_m r)); auto using shr_1_nonneg.
Qed.

Lemma round_nearest_even_nonneg m l : 0 <= m -> 0 <= round_nearest_even m l.
Proof.
  intros Hm. destruct l as [|[ | | ]]; cbn; try lia.
  destruct (Z.even m); lia.
Qed.

Lemma binary_round_aux_signed sx mx ex lx :
  0 <= mx -> sf_signed sx (binary_round_aux prec emax sx mx ex lx) = true.
Proof.
  intros Hm. unfold binary_round_aux.
  pose proof (shr_fexp_nonneg mx ex lx Hm) as H1.
  destruct (shr_fexp prec emax mx ex lx) as [mrs' e']. cbn [fst] in H1.
  pose proof (shr_fexp_nonneg
                (round_nearest_even (shr_m mrs') (loc_of_shr_record mrs')) e'
                loc_Exact (round_nearest_even_nonneg _ _ H1)) as H2.
  destruct (shr_fexp prec emax _ e' loc_Exact) as [mrs'' e'']. cbn [fst] in H2.
  destruct (shr_m mrs'') as [|m|m]; try lia.
  - cbn. apply eqb_reflx.
  - destruct (e'' <=? emax - prec); cbn; apply eqb_reflx.
Qed.

Lemma binary_round_signed sx mx ex :
  sf_signed sx (binary_round prec emax sx mx ex) = true.
Proof.
  unfold binary_round. destruct (shl_align _ _ _) as [mz ez].
  apply binary_round_aux_signed. lia.
Qed.

(** Flipping the sign asked of a rounding flips the sign of its result. *)
Lemma binary_round_aux_opp sx mx ex lx :
  binary_round_aux prec emax (negb sx) mx ex lx
  = SFopp (binary_round_aux prec emax sx mx ex lx).
Proof.
  unfold binary_round_aux.
  destruct (shr_fexp prec emax mx ex lx) as [mrs' e'].
  destruct (shr_fexp prec emax _ e' loc_Exact) as [mrs'' e''].
  destruct (shr_m mrs''); try reflexivity.
  destruct (e'' <=? emax - prec); reflexivity.
Qed.

Lemma binary_round_opp sx mx ex :
  binary_round prec emax (negb sx) mx ex = SFopp (binary_round prec emax sx mx ex).
Proof.
  unfold binary_round. destruct (shl_align _ _ _) as [mz ez].
  apply binary_round_aux_opp.
Qed.

Lemma binary_normalize_opp z e :
  binary_normalize prec emax (- z) e false = binary_normalize prec emax z e false
  \/ binary_normalize prec emax (- z) e false
     = SFopp (binary_normalize prec emax z e false).
Proof.
  destruct z as [|p|p]; cbn [Z.opp binary_normalize]; auto; right.
  - apply (binary_round_opp false).
  - rewrite <- (binary_round_opp true). reflexivity.
Qed.


(** ** Differences and squares *)

Lemma SFmul_opp_opp r : SF64mul (SFopp r) (SFopp r) = SF64mul r r.
Proof. destruct r as [[|]|[|]| |[|] m e]; reflexivity. Qed.

Lemma SFsub_swap x y :
  SF64sub y x = SF64sub x y \/ SF64sub y x = SFopp (SF64sub x y).
Proof.
  destruct x as [sx|sx| |sx mx ex], y as [sy|sy| |sy my ey];
    try (destruct sx, sy; cbn; auto; fail);
    try (destruct sx; cbn; auto; fail);
    try (destruct sy; cbn; auto; fail);
    try (cbn; auto; fail).
  unfold SF64sub, SFsub. rewrite (Z.min_comm ey ex).
  set (ez := Z.min ex ey).
  set (X := cond_Zopp sx (Zpos (fst (shl_align mx ex ez)))).
  set (Y := cond_Zopp sy (Zpos (fst (shl_align my ey ez)))).
  replace (Y - X) with (- (X - Y)) by lia.
  apply binary_normalize_opp.
Qed.

(** [(x - y)^2] and [(y - x)^2] are the same double. *)
Lemma float_square_diff_sym (x y : float) :
  ((x - y) * (x - y) = (y - x) * (y - x))%float.
Proof.
  apply Prim2SF_inj. rewrite !FloatAxioms.mul_spec, !FloatAxioms.sub_spec.
  destruct (SFsub_swap (Prim2SF x) (Prim2SF y)) as [-> | ->];
    [reflexivity | symmetry; apply SFmul_opp_opp].
Qed.

Lemma SFmul_square_signed r :
  r <> S754_nan -> sf_signed false (SF64mul r r) = true.
Proof.
  destruct r as [[|]|[|]| |s m e]; intros H; try reflexivity; try congruence.
  unfold SF64mul, SFmul. rewrite xorb_nilpotent.
  apply binary_round_aux_signed. lia.
Qed.

Lemma SFadd_signed a b :
  sf_signed false a = true -> sf_signed false b = true ->
  sf_signed false (SF64add a b) = true.
Proof.
  destruct a as [[|]|[|]| |[|] ma ea], b as [[|]|[|]| |[|] mb eb];
    intros Ha Hb; try discriminate; try reflexivity.
  unfold SF64add, SFadd, cond_Zopp.
  cbn [Z.add]. apply binary_round_signed.
Qed.

Lemma SFadd_infinity_r a :
  sf_signed false a = true ->
  SF64add a (S754_infinity false) = S754_infinity false.
Proof. destruct a as [[|]|[|]| |[|] ma ea]; intros H; try discriminate; reflexivity. Qed.

Lemma SFadd_infinity_l a :
  sf_signed false a = true ->
  SF64add (S754_infinity false) a = S754_infinity false.
Proof. destruct a as [[|]|[|]| |[|] ma ea]; intros H; try discriminate; reflexivity. Qed.

Lemma SFleb_zero_signed r :
  sf_signed false r = true -> SFleb (S754_zero false) r = true.
Proof. destruct r as [[|]|[|]| |[|] m e]; intros H; try discriminate; reflexivity. Qed.

Lemma SFsqrt_signed r :
  sf_signed false r = true -> sf_signed false (SF64sqrt r) = true.
Proof.
  destruct r as [[|]|[|]| |[|] m e]; intros H; try discriminate; try reflexivity.
  unfold SF64sqrt, SFsqrt, SFsqrt_core_binary.
  set (m' := match _ - _ with Zpos _ => _ | 0 => _ | Zneg _ => _ end).
  pose proof (Z.sqrtrem_sqrt m') as Hq. pose proof (Z.sqrt_nonneg m') as Hn.
  destruct (Z.sqrtrem m') as [q r]. cbn [fst] in Hq. subst q.
  apply binary_round_aux_signed. exact Hn.
Qed.

(** The bridge to the primitive operations. *)
Lemma signed_not_nan (x : float) :
  sf_signed false (Prim2SF x) = true -> fc_isnan x = false.
Proof.
  intros H. destruct (fc_isnan x) eqn:E; [|reflexivity].
  apply fc_isnan_spec in E. rewrite E in H. discriminate.
Qed.

Lemma signed_leb_zero (x : float) :
  sf_signed false (Prim2SF x) = true -> (0 <=? x)%float = true.
Proof.
  intros H. rewrite FloatAxioms.leb_spec. apply SFleb_zero_signed, H.
Qed.

(** A double with [|x| < infinity] is a finite number, and [x - x] is [+0]. *)
Lemma finite_sub_self (x : float) :
  (abs x <? infinity)%float = true -> (x - x)%float = 0%float.
Proof.
  rewrite FloatAxioms.ltb_spec, FloatAxioms.abs_spec. intros H.
  apply Prim2SF_inj. rewrite FloatAxioms.sub_spec.
  destruct (Prim2SF x) as [[|]|[|]| |s m e]; try discriminate; try reflexivity.
  unfold SF64sub, SFsub. rewrite Z.sub_diag. reflexivity.
Qed.

End FloatSigns.

(* ================================================================== *)
(** * The distance operations *)

Module Distances.
Import FloatSigns.

Lemma for_loop_ext {S} (body1 body2 : Z -> S -> S) :
  (forall k s, body1 k s = body2 k s) ->
  forall n k0 s, for_loop n k0 body1 s = for_loop n k0 body2 s.
Proof.
  intros H. induction n as [|n IH]; intros k0 s; [reflexivity|].
  cbn [for_loop]. rewrite H. apply IH.
Qed.

Lemma squared_sum_sym pi pj dim : squared_sum pi pj dim = squared_sum pj pi dim.
Proof.
  unfold squared_sum. apply for_loop_ext. intros k s. cbv zeta.
  rewrite float_square_diff_sym. reflexivity.
Qed.

(** X1: both distance operations are symmetric in their two nodes, bit for
    bit: [(a - b)^2] and [(b - a)^2] are the same double, and the sum runs
    over the coordinates in the same order. *)
Theorem distance_is_symmetric (st : CentroidDissimilarity) (i j : Z) (c : bool) :
  sqeuclidean c st i j = sqeuclidean c st j i
  /\ sqeuclidean_extended st i j = sqeuclidean_extended st j i.
Proof.
  unfold sqeuclidean, sqeuclidean_extended.
  rewrite (squared_sum_sym (basePointer st i)).
  rewrite (squared_sum_sym (extendedPointer st i)). auto.
Qed.

(** The running sum is NaN or a number with a clear sign bit. *)
Lemma squared_sum_loop_signed pi pj n : forall k0 s,
  fc_isnan s = true \/ sf_signed false (Prim2SF s) = true ->
  let r := for_loop n k0
             (fun k sum => let diff := (deref pi k - deref pj k)%float in
                           (sum + diff * diff)%float) s in
  fc_isnan r = true \/ sf_signed false (Prim2SF r) = true.
Proof.
  induction n as [|n IH]; intros k0 s Hs; [exact Hs|].
  cbn [for_loop]. apply IH. cbv zeta.
  set (d := (deref pi k0 - deref pj k0)%float).
  destruct Hs as [Hs|Hs]; [left; apply nan_add_l, Hs|].
  destruct (fc_isnan d) eqn:Hd; [left; apply nan_add_r, nan_square, Hd|].
  right. rewrite FloatAxioms.add_spec, FloatAxioms.mul_spec.
  apply SFadd_signed; [exact Hs|]. apply SFmul_square_signed.
  intros E. apply fc_isnan_spec in E. congruence.
Qed.

Lemma squared_sum_signed pi pj dim :
  fc_isnan (squared_sum pi pj dim) = true
  \/ sf_signed false (Prim2SF (squared_sum pi pj dim)) = true.
Proof. apply squared_sum_loop_signed. right. reflexivity. Qed.

(** X2: a distance handed back by a checked operation is a number, not NaN,
    and it is not negative; and the only thing a distance operation throws
    is [nan_error], which the unchecked variant never does. *)
Theorem checked_distance_is_nonnegative (st : CentroidDissimilarity) (i j : Z) :
  (forall d, sqeuclidean true st i j = Normal d ->
     fc_isnan d = false /\ (0 <=? d)%float = true)
  /\ (forall d, sqeuclidean_extended st i j = Normal d ->
        fc_isnan d = false /\ (0 <=? d)%float = true)
  /\ (forall c e, sqeuclidean c st i j = Throws e -> c = true /\ e = nan_error)
  /\ (forall e, sqeuclidean_extended st i j = Throws e -> e = nan_error).
Proof.
  unfold sqeuclidean, sqeuclidean_extended. repeat split.
  - destruct (fc_isnan _) eqn:E; cbn [andb] in H; [discriminate|].
    injection H as <-. exact E.
  - destruct (squared_sum_signed (basePointer st i) (basePointer st j) (dimension st))
      as [Hn|Hs]; [rewrite Hn in H; discriminate|].
    destruct (true && _); [discriminate|]. injection H as <-.
    apply signed_leb_zero, Hs.
  - destruct (fc_isnan _) eqn:E; [discriminate|]. injection H as <-. exact E.
  - destruct (squared_sum_signed (extendedPointer st i) (extendedPointer st j)
                (dimension st)) as [Hn|Hs]; [rewrite Hn in H; discriminate|].
    destruct (fc_isnan _); [discriminate|]. injection H as <-.
    apply signed_leb_zero, Hs.
  - destruct c; [reflexivity|]. cbn [andb] in H. discriminate.
  - destruct (c && _); [congruence | discriminate].
  - destruct (fc_isnan _); [congruence | discriminate].
Qed.


(** X3: a NaN in coordinate [k] of either node makes the checked operations
    throw [nan_error]; the unchecked variant hands the NaN back. *)
Theorem nan_coordinate_throws (st : CentroidDissimilarity) (i j k : Z) :
  0 <= k < dimension st ->
  (fc_isnan (deref (basePointer st i) k) = true
   \/ fc_isnan (deref (basePointer st j) k) = true ->
   sqeuclidean true st i j = Throws nan_error
   /\ exists d, sqeuclidean false st i j = Normal d /\ fc_isnan d = true)
  /\ (fc_isnan (deref (extendedPointer st i) k) = true
      \/ fc_isnan (deref (extendedPointer st j) k) = true ->
      sqeuclidean_extended st i j = Throws nan_error).
Proof.
  intros Hk. split; intros Hnan.
  - pose proof (Dissimilarity.squared_sum_nan_coordinate _ _ _ _ Hk Hnan) as E.
    unfold sqeuclidean. rewrite E. cbn [andb]. eauto.
  - pose proof (Dissimilarity.squared_sum_nan_coordinate _ _ _ _ Hk Hnan) as E.
    unfold sqeuclidean_extended. rewrite E. reflexivity.
Qed.

Lemma nan_coordinate_throws_witness :
  sqeuclidean true nan_state 0 2 = Throws nan_error.
Proof.
  apply (nan_coordinate_throws nan_state 0 2 1).
  - simpl; lia.
  - right. reflexivity.
Defined.

(** The running sum once a difference is infinite. *)
Lemma squared_sum_loop_infinite pi pj n : forall k0 s,
  (forall k, k0 <= k < k0 + Z.of_nat n ->
     fc_isnan (deref pi k - deref pj k) = false) ->
  sf_signed false (Prim2SF s) = true ->
  let r := for_loop n k0
             (fun k sum => let diff := (deref pi k - deref pj k)%float in
                           (sum + diff * diff)%float) s in
  sf_signed false (Prim2SF r) = true
  /\ (s = infinity
      \/ (exists k, k0 <= k < k0 + Z.of_nat n
            /\ ((deref pi k - deref pj k)%float = infinity
                \/ (deref pi k - deref pj k)%float = neg_infinity)) ->
      r = infinity).
Proof.
  induction n as [|n IH]; intros k0 s Hnan Hs.
  - cbn [for_loop]. split; [exact Hs|].
    intros [E|(k & Hk & _)]; [exact E | lia].
  - cbn [for_loop]. cbv zeta.
    set (d := (deref pi k0 - deref pj k0)%float).
    assert (Hd : fc_isnan d = false) by (apply Hnan; lia).
    assert (Hsq : sf_signed false (Prim2SF (d * d)) = true).
    { rewrite FloatAxioms.mul_spec. apply SFmul_square_signed.
      intros E. apply fc_isnan_spec in E. congruence. }
    assert (Hnext : sf_signed false (Prim2SF (s + d * d)) = true)
      by (rewrite FloatAxioms.add_spec; apply SFadd_signed; assumption).
    destruct (IH (k0 + 1) (s + d * d)%float) as [Hr Hinf];
      [intros k Hk; apply Hnan; lia | exact Hnext |].
    split; [exact Hr|]. intros Hcase. apply Hinf.
    destruct Hcase as [E|(k & Hk & Ek)].
    + left. apply Prim2SF_inj. rewrite FloatAxioms.add_spec, E.
      apply SFadd_infinity_l, Hsq.
    + destruct (Z.eq_dec k k0) as [->|Hne].
      * left. apply Prim2SF_inj. rewrite FloatAxioms.add_spec.
        fold d in Ek.
        replace (d * d)%float with infinity
          by (destruct Ek as [-> | ->]; reflexivity).
        apply SFadd_infinity_r, Hs.
      * right. exists k. split; [lia | exact Ek].
Qed.

(** X4: an infinite coordinate is not an error by itself.  When no
    coordinate difference is NaN and one of them is infinite, the squared
    distance is [+infinity] and the checked operation returns it. *)
Theorem infinite_difference_not_detected (st : CentroidDissimilarity) (i j k : Z) :
  (forall k', 0 <= k' < dimension st ->
     fc_isnan (deref (basePointer st i) k' - deref (basePointer st j) k') = false) ->
  0 <= k < dimension st ->
  (deref (basePointer st i) k - deref (basePointer st j) k)%float = infinity
  \/ (deref (basePointer st i) k - deref (basePointer st j) k)%float = neg_infinity ->
  sqeuclidean true st i j = Normal infinity.
Proof.
  intros Hnan Hk Hinf.
  destruct (squared_sum_loop_infinite (basePointer st i) (basePointer st j)
              (Z.to_nat (dimension st)) 0 0%float) as [_ H].
  - intros k' Hk'. apply Hnan. lia.
  - reflexivity.
  - assert (E : squared_sum (basePointer st i) (basePointer st j) (dimension st)
                 = infinity).
    { apply H. right. exists k. split; [lia | exact Hinf]. }
    unfold sqeuclidean. rewrite E. reflexivity.
Qed.

Lemma infinite_difference_not_detected_witness :
  sqeuclidean true infinite_state 0 1 = Normal infinity.
Proof.
  apply (infinite_difference_not_detected infinite_state 0 1 0).
  - intros k' Hk'. assert (k' = 0 \/ k' = 1) as [-> | ->] by (simpl in Hk'; lia);
      reflexivity.
  - simpl; lia.
  - left. reflexivity.
Defined.

(** X5: the distance from a node to itself is [+0] when its coordinates are
    finite numbers. *)
Theorem distance_to_itself_is_zero (st : CentroidDissimilarity) (i : Z) :
  (forall k, 0 <= k < dimension st ->
     (abs (deref (extendedPointer st i) k) <? infinity)%float = true) ->
  sqeuclidean_extended st i i = Normal 0%float.
Proof.
  intros Hfin.
  assert (H : forall n k0, 0 <= k0 -> k0 + Z.of_nat n <= dimension st ->
            for_loop n k0
              (fun k sum =>
                 let diff := (deref (extendedPointer st i) k
                              - deref (extendedPointer st i) k)%float in
                 (sum + diff * diff)%float) 0%float = 0%float).
  { induction n as [|n IH]; intros k0 H0 Hn; [reflexivity|].
    cbn [for_loop]. cbv zeta. rewrite finite_sub_self by (apply Hfin; lia).
    change (0 + 0 * 0)%float with 0%float. apply IH; lia. }
  assert (E : squared_sum (extendedPointer st i) (extendedPointer st i)
                (dimension st) = 0%float).
  { unfold squared_sum. destruct (Z.le_gt_cases 0 (dimension st)).
    - apply H; lia.
    - replace (Z.to_nat (dimension st)) with 0%nat by lia. reflexivity. }
  unfold sqeuclidean_extended. rewrite E. reflexivity.
Qed.

Lemma distance_to_itself_is_zero_witness :
  sqeuclidean_extended unit_square_state 2 2 = Normal 0%float.
Proof.
  apply distance_to_itself_is_zero.
  intros k Hk. assert (k = 0 \/ k = 1) as [-> | ->] by (simpl in Hk; lia);
    reflexivity.
Defined.

End Distances.

(* ================================================================== *)
(** * The constructor and the centroid updates *)

Module Storage.

(** ** The constructor *)




(** ** The two updates write one slot and keep every size *)

Section SlotLoop.
Variable st : CentroidDissimilarity.
Variables i j newNode : Z.
Variable f : float -> float -> float.

Let off := centroidPointer st newNode.

Let rep (s : list float) (a : Z) (k : Z) : float :=
  deref (extendedPointer
           {| data := data st; dimension := dimension st; count := count st;
              centroidStorage := s; members := members st |} a) k.

(** A loop that writes [f (pi[k]) (pj[k])] to [pn[k]]. *)
Let body (k : Z) (s : list float) : list float :=
  store s (off + k) (f (rep s i k) (rep s j k)).

Lemma slot_loop_frame n : forall k0 s,
  let s' := for_loop n k0 body s in
  length s' = length s
  /\ forall p, ~ (off + k0 <= p < off + k0 + Z.of_nat n) ->
       load 0%float s' p = load 0%float s p.
Proof.
  induction n as [|n IH]; intros k0 s; cbn [for_loop].
  - auto.
  - destruct (IH (k0 + 1) (body k0 s)) as [Hl Hf].
    assert (Hb : length (body k0 s) = length s)
      by (unfold body; apply length_store).
    split; [congruence|].
    intros p Hp. rewrite Hf by lia. unfold body. apply load_store_other. lia.
Qed.

Lemma slot_loop_values n : forall k0 s,
  0 <= k0 -> k0 + Z.of_nat n <= dimension st ->
  0 <= off -> off + dimension st <= Z.of_nat (length s) ->
  (forall p, ~ (off <= p < off + k0) ->
     load 0%float s p = load 0%float (centroidStorage st) p) ->
  forall k, k0 <= k < k0 + Z.of_nat n ->
    load 0%float (for_loop n k0 body s) (off + k)
    = f (rep (centroidStorage st) i k) (rep (centroidStorage st) j k).
Proof.
  induction n as [|n IH]; intros k0 s H0 Hn Hoff Hfit Hag k Hk; [lia|].
  cbn [for_loop].
  assert (Hbody : body k0 s
            = store s (off + k0)
                (f (rep (centroidStorage st) i k0) (rep (centroidStorage st) j k0))).
  { unfold body, rep.
    rewrite !(Dissimilarity.rep_unchanged st newNode s _ k0 k0)
      by (assumption || lia). reflexivity. }
  destruct (Z.eq_dec k k0) as [->|Hne].
  - destruct (slot_loop_frame n (k0 + 1) (body k0 s)) as [_ Hf].
    rewrite Hf by lia. rewrite Hbody. apply load_store_same. lia.
  - apply IH; try lia.
    + rewrite Hbody, length_store. lia.
    + intros p Hp. rewrite Hbody, load_store_other by lia. apply Hag. lia.
Qed.

End SlotLoop.


Lemma merge_storage st i j newNode :
  centroidStorage (merge st i j newNode)
  = for_loop (Z.to_nat (dimension st)) 0
      (fun k s =>
         store s (centroidPointer st newNode + k)
           ((fun a b =>
               (a * index_to_float (load 0%Z (members st) i)
                + b * index_to_float (load 0%Z (members st) j))
               / (index_to_float (load 0%Z (members st) i)
                  + index_to_float (load 0%Z (members st) j)))%float
              (deref (extendedPointer
                        {| data := data st; dimension := dimension st;
                           count := count st; centroidStorage := s;
                           members := members st |} i) k)
              (deref (extendedPointer
                        {| data := data st; dimension := dimension st;
                           count := count st; centroidStorage := s;
                           members := members st |} j) k)))
      (centroidStorage st).
Proof. reflexivity. Qed.

Lemma merge_weighted_storage st i j newNode :
  centroidStorage (merge_weighted st i j newNode)
  = for_loop (Z.to_nat (dimension st)) 0
      (fun k s =>
         store s (centroidPointer st newNode + k)
           ((fun a b => 0.5 * (a + b))%float
              (deref (extendedPointer
                        {| data := data st; dimension := dimension st;
                           count := count st; centroidStorage := s;
                           members := members st |} i) k)
              (deref (extendedPointer
                        {| data := data st; dimension := dimension st;
                           count := count st; centroidStorage := s;
                           members := members st |} j) k)))
      (centroidStorage st).
Proof. reflexivity. Qed.

(** Reading node [a] from a storage that differs from the model's only in
    the slot of another node. *)
Lemma other_slot_unchanged st newNode s a k :
  a <> newNode -> 0 <= k < dimension st ->
  (forall p, ~ (centroidPointer st newNode <= p
                < centroidPointer st newNode + dimension st) ->
     load 0%float s p = load 0%float (centroidStorage st) p) ->
  deref (extendedPointer
           {| data := data st; dimension := dimension st; count := count st;
              centroidStorage := s; members := members st |} a) k
  = deref (extendedPointer st a) k.
Proof.
  intros Hne Hk Hag. unfold extendedPointer, basePointer, deref.
  cbn [count dimension data centroidStorage].
  destruct (a <? count st); cbn [fst snd]; [reflexivity|].
  apply Hag. unfold centroidPointer.
  destruct (Z.lt_trichotomy a newNode) as [H|[H|H]]; nia.
Qed.

(** Both updates leave the storage outside the slot of [newNode] as it
    was. *)
Lemma update_storage_frame st i j newNode (weighted : bool) :
  let st' := if weighted then merge_weighted st i j newNode
             else merge st i j newNode in
  length (centroidStorage st') = length (centroidStorage st)
  /\ forall p, ~ (centroidPointer st newNode <= p
                  < centroidPointer st newNode + dimension st) ->
       load 0%float (centroidStorage st') p
       = load 0%float (centroidStorage st) p.
Proof.
  intros st'. unfold st'. destruct weighted.
  - rewrite merge_weighted_storage.
    destruct (slot_loop_frame st i j newNode (fun a b => 0.5 * (a + b))%float
                (Z.to_nat (dimension st)) 0 (centroidStorage st)) as [Hl Hf].
    split; [exact Hl | intros p Hp; apply Hf; lia].
  - rewrite merge_storage.
    destruct (slot_loop_frame st i j newNode
                (fun a b =>
                   (a * index_to_float (load 0%Z (members st) i)
                    + b * index_to_float (load 0%Z (members st) j))
                   / (index_to_float (load 0%Z (members st) i)
                      + index_to_float (load 0%Z (members st) j)))%float
                (Z.to_nat (dimension st)) 0 (centroidStorage st)) as [Hl Hf].
    split; [exact Hl | intros p Hp; apply Hf; lia].
Qed.

Lemma update_fields st i j newNode (weighted : bool) :
  let st' := if weighted then merge_weighted st i j newNode
             else merge st i j newNode in
  data st' = data st /\ dimension st' = dimension st /\ count st' = count st
  /\ members st' = store (members st) newNode
                     (load 0 (members st) i + load 0 (members st) j).
Proof. destruct weighted; repeat split. Qed.

(** The representative of a node other than [newNode] reads the same
    before and after an update. *)
Lemma update_other_nodes st i j newNode (weighted : bool) a k :
  a <> newNode -> 0 <= k < dimension st ->
  deref (extendedPointer (if weighted then merge_weighted st i j newNode
                          else merge st i j newNode) a) k
  = deref (extendedPointer st a) k.
Proof.
  intros Hne Hk.
  destruct (update_storage_frame st i j newNode weighted) as [_ Hf].
  destruct (update_fields st i j newNode weighted) as (Hd & Hdim & Hc & _).
  cbv zeta in Hf, Hd, Hdim, Hc.
  set (st' := if weighted then merge_weighted st i j newNode
              else merge st i j newNode) in *.
  rewrite <- (other_slot_unchanged st newNode (centroidStorage st') a k Hne Hk Hf).
  rewrite <- Hd, <- Hdim, <- Hc.
  unfold extendedPointer, basePointer. rewrite Hdim, Hc, Hd. reflexivity.
Qed.

(** X7: [merge] and [merge_weighted] write the slot of [newNode] and its
    member count, and nothing else: the representative vector and the
    member count of every other node, the caller's matrix, the dimension,
    the count and the sizes of both vectors are as before. *)
Theorem updates_change_only_new_node (st : CentroidDissimilarity)
    (i j newNode : Z) (weighted : bool) :
  count st <= newNode ->
  (newNode - count st + 1) * dimension st
    <= Z.of_nat (length (centroidStorage st)) ->
  0 <= newNode < Z.of_nat (length (members st)) ->
  let st' := if weighted then merge_weighted st i j newNode
             else merge st i j newNode in
  (forall a k, a <> newNode -> 0 <= k < dimension st ->
     deref (extendedPointer st' a) k = deref (extendedPointer st a) k)
  /\ (forall a, a <> newNode -> load 0 (members st') a = load 0 (members st) a)
  /\ data st' = data st /\ dimension st' = dimension st /\ count st' = count st
  /\ length (centroidStorage st') = length (centroidStorage st)
  /\ length (members st') = length (members st).
Proof.
  intros Habove Hfit Hmem st'.
  destruct (update_storage_frame st i j newNode weighted) as [Hl _].
  destruct (update_fields st i j newNode weighted) as (Hd & Hdim & Hc & Hm).
  fold st' in Hl, Hd, Hdim, Hc, Hm.
  split; [|split; [|repeat split; try assumption]].
  - intros a k Hne Hk. apply update_other_nodes; assumption.
  - intros a Hne. rewrite Hm. apply load_store_other. congruence.
  - rewrite Hm. apply length_store.
Qed.

Lemma updates_change_only_new_node_witness :
  deref (extendedPointer (merge unit_square_state 0 1 3) 2) 1 = 0.875%float.
Proof.
  destruct (updates_change_only_new_node unit_square_state 0 1 3 false)
    as (H & _).
  - simpl; lia.
  - simpl; lia.
  - simpl; lia.
  - rewrite H by (simpl; lia). reflexivity.
Defined.

(** X8: [merge_weighted(i, j, newNode)] stores the midpoint
    [0.5 * (rep_i + rep_j)] in every component of the slot of [newNode],
    the sources read as they were before the call, and sets the member
    count of [newNode] to the sum of the two member counts. *)
Theorem merge_weighted_stores_midpoint (st : CentroidDissimilarity)
    (i j newNode : Z) :
  count st <= newNode ->
  (newNode - count st + 1) * dimension st
    <= Z.of_nat (length (centroidStorage st)) ->
  0 <= newNode < Z.of_nat (length (members st)) ->
  let st' := merge_weighted st i j newNode in
  (forall k, 0 <= k < dimension st ->
     deref (extendedPointer st' newNode) k
     = (0.5 * (deref (extendedPointer st i) k + deref (extendedPointer st j) k))%float)
  /\ load 0 (members st') newNode
     = load 0 (members st) i + load 0 (members st) j.
Proof.
  intros Habove Hfit Hmem st'. split.
  - intros k Hk.
    assert (Hoff : 0 <= centroidPointer st newNode)
      by (unfold centroidPointer; nia).
    assert (Hslot : centroidPointer st newNode + dimension st
                    <= Z.of_nat (length (centroidStorage st)))
      by (unfold centroidPointer in *; nia).
    pose proof (slot_loop_values st i j newNode (fun a b => 0.5 * (a + b))%float
                  (Z.to_nat (dimension st)) 0 (centroidStorage st)
                  ltac:(lia) ltac:(lia) Hoff Hslot (fun p _ => eq_refl)
                  k ltac:(lia)) as V.
    assert (E : extendedPointer st' newNode
                = (centroidStorage st', centroidPointer st newNode)).
    { unfold extendedPointer, st'. cbn [count dimension merge_weighted].
      destruct (Z.ltb_spec newNode (count st)); [lia | reflexivity]. }
    rewrite E. unfold st'. clear E Hoff Hslot Habove Hfit Hmem Hk st'.
    revert V. destruct st. intros V. exact V.
  - unfold st', merge_weighted. cbn [members]. apply load_store_same. assumption.
Qed.

Lemma merge_weighted_stores_midpoint_witness :
  deref (extendedPointer (merge_weighted unit_square_state 0 2 3) 3) 1
  = 0.4375%float.
Proof.
  destruct (merge_weighted_stores_midpoint unit_square_state 0 2 3) as (H & _).
  - simpl; lia.
  - simpl; lia.
  - simpl; lia.
  - rewrite H by (simpl; lia). reflexivity.
Defined.

(** The accumulation loop reads its two vectors at the components
    [0 .. dim-1] only. *)
Lemma for_loop_ext_range {S} (body1 body2 : Z -> S -> S) n : forall k0 s,
  (forall k s, k0 <= k < k0 + Z.of_nat n -> body1 k s = body2 k s) ->
  for_loop n k0 body1 s = for_loop n k0 body2 s.
Proof.
  induction n as [|n IH]; intros k0 s H; [reflexivity|].
  cbn [for_loop]. rewrite H by lia. apply IH. intros k s' Hk. apply H. lia.
Qed.

Lemma squared_sum_ext pi pj pi' pj' dim :
  (forall k, 0 <= k < dim -> deref pi k = deref pi' k /\ deref pj k = deref pj' k) ->
  squared_sum pi pj dim = squared_sum pi' pj' dim.
Proof.
  intros H. unfold squared_sum. apply for_loop_ext_range. intros k s Hk.
  destruct (H k ltac:(lia)) as [-> ->]. reflexivity.
Qed.

(** X9: an update for [newNode] does not disturb the distances the
    engine has not asked to change: [sqeuclidean_extended] between two
    nodes other than [newNode], and [sqeuclidean] between any two rows of
    the caller's matrix, return after [merge] or [merge_weighted] what they
    returned before, exception included. *)
Theorem update_keeps_other_distances (st : CentroidDissimilarity)
    (i j newNode : Z) (weighted : bool) :
  count st <= newNode ->
  (newNode - count st + 1) * dimension st
    <= Z.of_nat (length (centroidStorage st)) ->
  0 <= newNode < Z.of_nat (length (members st)) ->
  let st' := if weighted then merge_weighted st i j newNode
             else merge st i j newNode in
  (forall a b, a <> newNode -> b <> newNode ->
     sqeuclidean_extended st' a b = sqeuclidean_extended st a b)
  /\ (forall c a b, sqeuclidean c st' a b = sqeuclidean c st a b).
Proof.
  intros Habove Hfit Hmem st'.
  destruct (update_fields st i j newNode weighted) as (Hd & Hdim & Hc & _).
  fold st' in Hd, Hdim, Hc. split.
  - intros a b Ha Hb. unfold sqeuclidean_extended. rewrite Hdim.
    rewrite (squared_sum_ext (extendedPointer st' a) (extendedPointer st' b)
               (extendedPointer st a) (extendedPointer st b));
      [reflexivity|].
    intros k Hk. split; apply update_other_nodes; assumption.
  - intros c a b. unfold sqeuclidean, basePointer. rewrite Hd, Hdim.
    reflexivity.
Qed.

Lemma update_keeps_other_distances_witness :
  sqeuclidean_extended (merge unit_square_state 1 2 3) 0 2
  = Normal 1.015625%float.
Proof.
  destruct (update_keeps_other_distances unit_square_state 1 2 3 false)
    as (H & _).
  - simpl; lia.
  - simpl; lia.
  - simpl; lia.
  - rewrite H by lia. reflexivity.
Defined.



End Storage.

(* ================================================================== *)
(** * The boundary function on every path *)

Module Calls.
Import Contract Encoder Linkage.

(** An encoder run that has no entry to encode returns the block as it is. *)
Lemma encode_nothing out events N :
  N <= 1 -> generateSciPyDendrogram true out events N = out.
Proof.
  intros HN. rewrite generateSciPyDendrogram_true.
  replace (Z.to_nat (N - 1)) with 0%nat by lia. reflexivity.
Qed.

(** X11: a call that does not return Success has written nothing, and
    neither has a call on fewer than two points: the output block is handed
    back as it came. *)
Theorem failed_call_writes_nothing P data N D out len :
  fst (fastcluster_compute_centroid_linkage P data N D out len)
    <> FASTCLUSTER_WRAPPER_SUCCESS
  \/ N <= 1 ->
  snd (fastcluster_compute_centroid_linkage P data N D out len) = out.
Proof.
  unfold fastcluster_compute_centroid_linkage.
  destruct data as [input|], out as [out|]; try reflexivity.
  destruct (N =? 0); [reflexivity|].
  destruct (D =? 0); [reflexivity|].
  destruct (_ || _); [reflexivity|].
  destruct (len <? requiredLength N); [reflexivity|].
  destruct (N =? 1); [reflexivity|].
  destruct (try_block_cases P input N D) as [(e & He)|(events & _ & Ht)].
  - rewrite He. reflexivity.
  - rewrite Ht. cbn [fst snd]. intros [H|H]; [congruence|].
    rewrite encode_nothing by exact H. reflexivity.
Qed.

Lemma failed_call_writes_nothing_witness :
  snd (fastcluster_compute_centroid_linkage small_platform (Some triangle_nan)
         3 2 (Some (repeat 7%float 8)) 8)
  = Some (repeat 7%float 8).
Proof.
  apply failed_call_writes_nothing. left. vm_compute. discriminate.
Defined.

(** X12: whatever the status, the call keeps the length of the output
    block and leaves alone every cell from [4 * (N - 1)] on, hence every
    cell from [dendrogramLength] on: no row is written past the announced
    length, whatever the engine returns. *)
Theorem writes_stay_below_length P data N D out len :
  MAX_INDEX P < 2 ^ 62 ->
  exists out',
    snd (fastcluster_compute_centroid_linkage P data N D (Some out) len)
      = Some out'
    /\ length out' = length out
    /\ forall p, 4 * (N - 1) <= p \/ len <= p ->
         load 0%float out' p = load 0%float out p.
Proof.
  intros Hmax. unfold fastcluster_compute_centroid_linkage.
  destruct data as [input|]; [|exists out; auto].
  destruct (N =? 0); [exists out; auto|].
  destruct (D =? 0); [exists out; auto|].
  destruct (Z.ltb_spec (MAX_INDEX P) N); cbn [orb]; [exists out; auto|].
  destruct (MAX_INDEX P <? D); [exists out; auto|].
  destruct (Z.ltb_spec len (requiredLength N)) as [|Hreq]; [exists out; auto|].
  destruct (N =? 1); [exists out; auto|].
  destruct (try_block_cases P input N D) as [(e & He)|(events & _ & Ht)].
  - rewrite He. exists out. auto.
  - rewrite Ht. cbn [snd]. eexists. split; [reflexivity|].
    rewrite generateSciPyDendrogram_true.
    set (entries := firstn (Z.to_nat (N - 1)) (postprocess events)).
    assert (Hcount : Z.of_nat (length entries) <= Z.max 0 (N - 1))
      by (unfold entries; rewrite length_firstn; lia).
    destruct (emit_fold_frame N entries (LinkageOutput_new out)) as (_ & Hl & Hf).
    split; [exact Hl|]. intros p Hp. apply Hf.
    cbn [LinkageOutput_new cursor].
    assert (N <= 1 \/ requiredLength N = 4 * (N - 1))
      by (destruct (Z.le_gt_cases N 1); [auto | right; apply requiredLength_exact; lia]).
    lia.
Qed.

Lemma writes_stay_below_length_witness :
  exists out',
    snd (fastcluster_compute_centroid_linkage small_platform (Some triangle) 3 2
           (Some (repeat 7%float 10)) 8) = Some out'
    /\ length out' = 10%nat
    /\ forall p, 4 * (3 - 1) <= p \/ 8 <= p ->
         load 0%float out' p = load 0%float (repeat 7%float 10) p.
Proof.
  apply (writes_stay_below_length small_platform (Some triangle) 3 2
           (repeat 7%float 10) 8).
  simpl; lia.
Defined.

(** X13: with non-null pointers, a non-empty input and a non-zero
    dimension, a point count or a dimension above [MAX_INDEX] is answered
    with IndexOverflow, whatever the buffer length, and before anything is
    allocated or computed. *)
Theorem index_overflow_reported P input N D out len :
  N <> 0 -> D <> 0 ->
  MAX_INDEX P < N \/ MAX_INDEX P < D ->
  fastcluster_compute_centroid_linkage P (Some input) N D (Some out) len
  = (FASTCLUSTER_WRAPPER_INDEX_OVERFLOW, Some out).
Proof.
  intros HN HD Hover. unfold fastcluster_compute_centroid_linkage.
  destruct (Z.eqb_spec N 0); [contradiction|].
  destruct (Z.eqb_spec D 0); [contradiction|].
  destruct (Z.ltb_spec (MAX_INDEX P) N), (Z.ltb_spec (MAX_INDEX P) D);
    cbn [orb]; try reflexivity. lia.
Qed.

Lemma index_overflow_reported_witness :
  fastcluster_compute_centroid_linkage small_platform (Some triangle)
    3 0x80000000 (Some []) 0
  = (FASTCLUSTER_WRAPPER_INDEX_OVERFLOW, Some []).
Proof.
  apply index_overflow_reported.
  - lia.
  - lia.
  - right. simpl; lia.
Defined.

(** X14: for a call that passes the pointer, dimension and range checks,
    on two points or more, the status is OutputTooSmall exactly when the
    announced length is below [(N - 1) * 4]; one cell short is too small,
    and then nothing is allocated, computed or written. *)
Theorem output_too_small_threshold P input N D out len :
  2 <= N <= MAX_INDEX P -> 1 <= D <= MAX_INDEX P -> N < 2 ^ 62 ->
  (fst (fastcluster_compute_centroid_linkage P (Some input) N D (Some out) len)
     = FASTCLUSTER_WRAPPER_OUTPUT_TOO_SMALL
   <-> len < (N - 1) * 4)
  /\ (len < (N - 1) * 4 ->
      fastcluster_compute_centroid_linkage P (Some input) N D (Some out) len
      = (FASTCLUSTER_WRAPPER_OUTPUT_TOO_SMALL, Some out)).
Proof.
  intros HN HD Hbig. unfold fastcluster_compute_centroid_linkage.
  destruct (Z.eqb_spec N 0); [lia|].
  destruct (Z.eqb_spec D 0); [lia|].
  destruct (Z.ltb_spec (MAX_INDEX P) N); [lia|].
  destruct (Z.ltb_spec (MAX_INDEX P) D); [lia|]. cbn [orb].
  rewrite requiredLength_exact by lia.
  destruct (Z.ltb_spec len (4 * (N - 1))) as [Hlt|Hge].
  - cbn [fst]. split; [split; [lia | reflexivity] | reflexivity].
  - destruct (Z.eqb_spec N 1); [lia|].
    split; [|lia]. split; [|lia].
    destruct (try_block P input N D out) as [o|e]; cbn [fst];
      [discriminate | destruct e; discriminate].
Qed.

Lemma output_too_small_threshold_witness :
  fastcluster_compute_centroid_linkage small_platform (Some triangle) 3 2
    (Some (repeat 7%float 8)) 7
  = (FASTCLUSTER_WRAPPER_OUTPUT_TOO_SMALL, Some (repeat 7%float 8)).
Proof.
  apply (output_too_small_threshold small_platform triangle 3 2
           (repeat 7%float 8) 7).
  - simpl; lia.
  - simpl; lia.
  - lia.
  - lia.
Defined.

(** X15: a single point of a valid dimension is answered with Success
    whatever the announced length: no row is required, nothing is
    allocated, the engine is not consulted and the block is not touched. *)
Theorem single_point_succeeds P input D out len :
  1 <= D <= MAX_INDEX P -> 0 <= len ->
  fastcluster_compute_centroid_linkage P (Some input) 1 D (Some out) len
  = (FASTCLUSTER_WRAPPER_SUCCESS, Some out).
Proof.
  intros HD Hlen. unfold fastcluster_compute_centroid_linkage.
  cbn [Z.eqb]. destruct (Z.eqb_spec D 0); [lia|].
  destruct (Z.ltb_spec (MAX_INDEX P) 1); [lia|].
  destruct (Z.ltb_spec (MAX_INDEX P) D); [lia|]. cbn [orb].
  change (requiredLength 1) with 0.
  destruct (Z.ltb_spec len 0); [lia|]. reflexivity.
Qed.

Lemma single_point_succeeds_witness :
  fastcluster_compute_centroid_linkage small_platform (Some [nan]%float) 1 1
    (Some []) 0
  = (FASTCLUSTER_WRAPPER_SUCCESS, Some []).
Proof.
  apply single_point_succeeds.
  - simpl; lia.
  - lia.
Defined.



(** X17: InvalidArgument is returned exactly for a null pointer or for a
    zero dimension with a non-empty input, and IndexOverflow exactly for
    non-null pointers, a non-empty input and a non-zero dimension with a
    count or a dimension above [MAX_INDEX]; nothing that happens later in
    the call, an exception included, is reported with either status. *)
Theorem argument_statuses_exactly P data N D out len :
  let status := fst (fastcluster_compute_centroid_linkage P data N D out len) in
  (status = FASTCLUSTER_WRAPPER_INVALID_ARGUMENT
   <-> data = None \/ out = None \/ (N <> 0 /\ D = 0))
  /\ (status = FASTCLUSTER_WRAPPER_INDEX_OVERFLOW
      <-> data <> None /\ out <> None /\ N <> 0 /\ D <> 0
          /\ (MAX_INDEX P < N \/ MAX_INDEX P < D)).
Proof.
  unfold fastcluster_compute_centroid_linkage.
  destruct data as [input|], out as [out|];
    try (cbn [fst]; split; split; intros H; try discriminate H;
         solve [intuition congruence]).
  destruct (Z.eqb_spec N 0) as [HN|HN];
    [cbn [fst]; split; split; intros H; try discriminate H;
     exfalso; intuition congruence|].
  destruct (Z.eqb_spec D 0) as [HD|HD];
    [cbn [fst]; split; split; intros H; try discriminate H;
     solve [intuition congruence]|].
  destruct (Z.ltb_spec (MAX_INDEX P) N) as [H1|H1]; cbn [orb];
    [cbn [fst]; split; split; intros H; try discriminate H;
     solve [exfalso; intuition congruence | intuition congruence]|].
  destruct (Z.ltb_spec (MAX_INDEX P) D) as [H2|H2];
    [cbn [fst]; split; split; intros H; try discriminate H;
     solve [exfalso; intuition congruence | intuition congruence]|].
  assert (Hinv : ~ (Some input = None \/ Some out = None \/ N <> 0 /\ D = 0))
    by (intros [H|[H|[_ H]]]; congruence).
  assert (Hover : ~ (Some input <> None /\ Some out <> None /\ N <> 0 /\ D <> 0
                     /\ (MAX_INDEX P < N \/ MAX_INDEX P < D)))
    by (intros (_ & _ & _ & _ & [H|H]); lia).
  assert (Hrest : forall s : fastcluster_wrapper_status,
            s <> FASTCLUSTER_WRAPPER_INVALID_ARGUMENT ->
            s <> FASTCLUSTER_WRAPPER_INDEX_OVERFLOW ->
            (s = FASTCLUSTER_WRAPPER_INVALID_ARGUMENT
             <-> Some input = None \/ Some out = None \/ N <> 0 /\ D = 0)
            /\ (s = FASTCLUSTER_WRAPPER_INDEX_OVERFLOW
                <-> Some input <> None /\ Some out <> None /\ N <> 0 /\ D <> 0
                    /\ (MAX_INDEX P < N \/ MAX_INDEX P < D)))
    by (intros s A B; split; split; intros H; tauto).
  destruct (len <? requiredLength N); [apply Hrest; discriminate|].
  destruct (N =? 1); [apply Hrest; discriminate|].
  destruct (try_block P input N D out) as [o|e];
    [apply Hrest; discriminate|].
  apply Hrest; destruct e; discriminate.
Qed.

End Calls.

(* ================================================================== *)
(** * Rows of the output matrix *)

Module Rows.
Import FloatSigns Contract Encoder Linkage.

(** Conversion of indices is monotone. *)
Lemma index_to_float_le a b :
  0 <= a -> a <= b -> b < 2 ^ 53 ->
  (index_to_float a <=? index_to_float b)%float = true.
Proof.
  intros Ha Hab Hb. rewrite FloatAxioms.leb_spec. unfold SFleb.
  destruct (Z.eq_dec a b) as [<-|Hne].
  - rewrite SFcompare_refl_not_nan; [reflexivity|].
    destruct (Z.eq_dec a 0) as [->|Na].
    + rewrite index_to_float_0. discriminate.
    + rewrite Prim2SF_index_to_float by lia. discriminate.
  - pose proof (index_to_float_lt a b Ha ltac:(lia) Hb) as H.
    rewrite FloatAxioms.ltb_spec in H. unfold SFltb in H.
    destruct (SFcompare _ _) as [[ | | ]|]; try discriminate. reflexivity.
Qed.

(** X18: [append] writes one row of four cells at the cursor, the smaller
    index first (so the first cell is never above the second, also when the
    two indices are equal), then the distance and the size as given; it
    advances the cursor by four and changes nothing else in the block. *)
Theorem append_writes_one_row o n1 n2 d s :
  0 <= cursor o -> cursor o + 4 <= Z.of_nat (length (buffer o)) ->
  0 <= n1 < 2 ^ 53 -> 0 <= n2 < 2 ^ 53 ->
  let o' := append o n1 n2 d s in
  let cell k := load 0%float (buffer o') (cursor o + k) in
  cell 0 = index_to_float (Z.min n1 n2)
  /\ cell 1 = index_to_float (Z.max n1 n2)
  /\ (cell 0%Z <=? cell 1%Z)%float = true
  /\ cell 2 = d /\ cell 3 = s
  /\ cursor o' = cursor o + 4
  /\ length (buffer o') = length (buffer o)
  /\ forall p, ~ (cursor o <= p < cursor o + 4) ->
       load 0%float (buffer o') p = load 0%float (buffer o) p.
Proof.
  intros H0 Hfit H1 H2 o' cell.
  destruct (append_row o n1 n2 d s H0 Hfit) as (A & B & C & E).
  unfold cell, o'. rewrite Z.add_0_r.
  split; [exact A|]. split; [exact B|].
  split; [rewrite A, B; apply index_to_float_le; lia|].
  split; [exact C|]. split; [exact E|].
  split; [apply append_cursor|]. split; [apply append_length|].
  intros p Hp. apply append_other, Hp.
Qed.

Lemma append_writes_one_row_witness :
  buffer (append (LinkageOutput_new (repeat 7%float 5)) 3 3 0.5 2)
  = [3; 3; 0.5; 2; 7]%float
  /\ (load 0%float
        (buffer (append (LinkageOutput_new (repeat 7%float 5)) 3 3 0.5 2)) (0 + 0)
      <=? load 0%float
            (buffer (append (LinkageOutput_new (repeat 7%float 5)) 3 3 0.5 2))
            (0 + 1))%float = true.
Proof.
  destruct (append_writes_one_row (LinkageOutput_new (repeat 7%float 5))
              3 3 0.5%float 2%float) as (_ & _ & H & _).
  - simpl; lia.
  - simpl; lia.
  - lia.
  - lia.
  - split; [reflexivity | exact H].
Defined.

Lemma sqrt_cases (x : float) :
  ((0 <=? x)%float = true -> (0 <=? PrimFloat.sqrt x)%float = true)
  /\ ((x <? 0)%float = true -> fc_isnan (PrimFloat.sqrt x) = true)
  /\ (fc_isnan x = true -> fc_isnan (PrimFloat.sqrt x) = true).
Proof.
  rewrite !fc_isnan_spec, !FloatAxioms.leb_spec, FloatAxioms.ltb_spec,
    FloatAxioms.sqrt_spec.
  change (Prim2SF 0) with (S754_zero false).
  split; [|split].
  - destruct (Prim2SF x) as [[|]|[|]| |[|] m e] eqn:E; intros H;
      try discriminate; try reflexivity.
    apply SFleb_zero_signed, SFsqrt_signed. reflexivity.
  - destruct (Prim2SF x) as [[|]|[|]| |[|] m e]; intros H;
      try discriminate; reflexivity.
  - intros ->. reflexivity.
Qed.

(** X19: in a successful call the distance cell of row [r] is the square
    root of the squared distance of the engine's merge [r]: non-negative
    when that is non-negative, and NaN, under a Success status, when the
    engine hands back a negative or NaN squared distance; the results of
    the engine are not checked. *)
Theorem distance_cells_are_roots P input N D out len out' events r e :
  2 <= N < 2 ^ 62 ->
  len <= Z.of_nat (length out) ->
  fastcluster_compute_centroid_linkage P (Some input) N D (Some out) len
    = (FASTCLUSTER_WRAPPER_SUCCESS, Some out') ->
  engine_events P input N D = Some events ->
  nth_error events r = Some e -> Z.of_nat r < N - 1 ->
  let cell := load 0%float out' (4 * Z.of_nat r + 2) in
  cell = PrimFloat.sqrt (dist e)
  /\ ((0 <=? dist e)%float = true -> (0 <=? cell)%float = true)
  /\ ((dist e <? 0)%float = true -> fc_isnan cell = true)
  /\ (fc_isnan (dist e) = true -> fc_isnan cell = true).
Proof.
  intros HN Hlen Hcall Hev Hnth Hr cell.
  destruct (successful_call P input N D out len out' ltac:(lia) Hcall)
    as (Hreq & events0 & Hev0 & Hout).
  rewrite Hev in Hev0. injection Hev0 as <-.
  rewrite requiredLength_exact in Hreq by lia.
  assert (Hcell : cell = PrimFloat.sqrt (dist e)).
  { unfold cell. rewrite Hout, generateSciPyDendrogram_true.
    set (entries := firstn (Z.to_nat (N - 1)) (postprocess events)).
    assert (Hfit : 4 * Z.of_nat (length entries) <= Z.of_nat (length out))
      by (unfold entries; rewrite length_firstn; lia).
    assert (Hentry : nth_error entries r
              = Some {| node1 := node1 e; node2 := node2 e;
                        dist := PrimFloat.sqrt (dist e) |}).
    { unfold entries. rewrite nth_error_firstn.
      destruct (Nat.ltb_spec r (Z.to_nat (N - 1))); [|lia].
      unfold postprocess, cluster_result_sqrt.
      rewrite nth_error_map, Hnth. reflexivity. }
    apply (encoded_ids N entries out Hfit r _ Hentry). }
  split; [exact Hcell|]. rewrite Hcell. apply sqrt_cases.
Qed.

Lemma distance_cells_are_roots_witness :
  load 0%float triangle_dendrogram 6 = 0.875%float
  /\ (0 <=? load 0%float triangle_dendrogram 6)%float = true.
Proof.
  destruct (distance_cells_are_roots small_platform triangle 3 2
              (repeat 7%float 8) 8 triangle_dendrogram triangle_events 1%nat
              {| node1 := 2; node2 := 3; dist := 0.765625 |})
    as (H1 & H2 & _).
  - lia.
  - simpl; lia.
  - vm_compute; reflexivity.
  - vm_compute; reflexivity.
  - reflexivity.
  - simpl; lia.
  - split; [exact H1 | apply H2; reflexivity].
Defined.

(** X20: under the engine's contract, in a successful call the two sides
    of every row have whole sizes of at least one leaf each, the size cell
    of the row is their sum, at most [N], and it is strictly above the
    size of either side: sizes grow strictly from a node to its parent. *)
Theorem sizes_grow_towards_root P input N D out len out' events r e :
  2 <= N < 2 ^ 52 ->
  len <= Z.of_nat (length out) ->
  fastcluster_compute_centroid_linkage P (Some input) N D (Some out) len
    = (FASTCLUSTER_WRAPPER_SUCCESS, Some out') ->
  engine_events P input N D = Some events ->
  valid_merges N events = true ->
  nth_error events r = Some e ->
  let size := load 0%float out' (4 * Z.of_nat r + 3) in
  exists c1 c2,
    1 <= c1 /\ 1 <= c2 /\ c1 + c2 <= N
    /\ side_size out' N (node1 e) = index_to_float c1
    /\ side_size out' N (node2 e) = index_to_float c2
    /\ size = index_to_float (c1 + c2)
    /\ (side_size out' N (node1 e) <? size)%float = true
    /\ (side_size out' N (node2 e) <? size)%float = true.
Proof.
  intros HN Hlen Hcall Hev Hc Hnth size.
  set (sz := subtree_sizes N [] events).
  destruct (valid_merges_refs N events Hc) as [Hcount Hrefs].
  destruct (valid_merges_sizes N events ltac:(lia) Hc) as [Hbound _].
  fold sz in Hbound.
  assert (Hr : (r < length events)%nat) by (apply nth_error_Some; congruence).
  pose proof (entries_length N events Hc) as Hel.
  pose proof (success_output P input out out' N D len events Hcall Hev Hc HN)
    as Hout.
  pose proof (success_fits P input out out' N D len events Hcall Hc HN Hlen)
    as Hfit.
  assert (Hprior : forall r0 e0, nth_error (postprocess events) r0 = Some e0 ->
            node1 e0 < N + Z.of_nat r0 /\ node2 e0 < N + Z.of_nat r0)
    by (intros r0 e0; apply (success_prior_refs N events Hc HN)).
  assert (Hbig : 2 ^ 53 = 2 * 2 ^ 52) by reflexivity.
  assert (Hcells : forall p, 0 <= p < N - 1 ->
            load 0%float out' (4 * p + 3) = index_to_float (load 0 sz p)).
  { intros p Hp. rewrite Hout.
    replace (4 * p + 3) with (4 * Z.of_nat (Z.to_nat p) + 3) by lia.
    rewrite (encoded_leaf_counts N (postprocess events) out Hfit Hprior).
    - rewrite subtree_sizes_postprocess, Z2Nat.id by lia. reflexivity.
    - intros q Hq. rewrite subtree_sizes_postprocess. fold sz.
      specialize (Hbound q ltac:(lia)). lia.
    - lia. }
  assert (Hside : forall n, 0 <= n < N + Z.of_nat r ->
            side_size out' N n = index_to_float (weight N sz n)
            /\ 1 <= weight N sz n).
  { intros n Hn. unfold side_size, weight, Z_.
    destruct (Z.ltb_spec n N); [split; [reflexivity | lia]|].
    replace ((n - N) * 4 + 3) with (4 * (n - N) + 3) by lia.
    rewrite Hcells by lia. split; [reflexivity | apply Hbound; lia]. }
  destruct (Hrefs r e Hnth) as (Ha & Hb & _).
  destruct (Hside _ Ha) as [E1 P1]. destruct (Hside _ Hb) as [E2 P2].
  assert (Hrow : load 0 sz (Z.of_nat r)
                 = weight N sz (node1 e) + weight N sz (node2 e)).
  { apply (subtree_sizes_row N events [] r e); [|assumption].
    intros r' e' H'. cbn [length]. destruct (Hrefs r' e' H') as (? & ? & _). lia. }
  pose proof (Hbound (Z.of_nat r) ltac:(lia)) as Hb_r.
  assert (Hsize : size = index_to_float (weight N sz (node1 e) + weight N sz (node2 e))).
  { unfold size. rewrite Hcells by lia. rewrite Hrow. reflexivity. }
  exists (weight N sz (node1 e)), (weight N sz (node2 e)).
  split; [exact P1|]. split; [exact P2|]. split; [lia|].
  split; [exact E1|]. split; [exact E2|]. split; [exact Hsize|].
  rewrite Hsize, E1, E2. split; apply index_to_float_lt; lia.
Qed.

Lemma sizes_grow_towards_root_witness :
  (side_size triangle_dendrogram 3 3 <? load 0%float triangle_dendrogram (4 * 1 + 3))%float
  = true.
Proof.
  destruct (sizes_grow_towards_root small_platform triangle 3 2
              (repeat 7%float 8) 8 triangle_dendrogram triangle_events 1%nat
              {| node1 := 2; node2 := 3; dist := 0.765625 |})
    as (c1 & c2 & _ & _ & _ & _ & _ & _ & _ & H).
  - lia.
  - simpl; lia.
  - vm_compute; reflexivity.
  - vm_compute; reflexivity.
  - reflexivity.
  - reflexivity.
  - exact H.
Defined.

End Rows.
